(** * Market-data ingestion pipeline: a shallow embedding of
      [hmm-service/data_pipeline.py]

    The development follows the Python module top to bottom: the
    [MarketDataPoint] dataclass and its dictionary codec, the
    [DataQualityValidator], the [KafkaStreamer] and [PostgreSQLStorage]
    sinks, and the [DataIngestionPipeline] with its ingest entry point,
    batch-processor loop, metrics snapshot and lifecycle operations.

    Modelling conventions.
    - Python [float]s (prices, clock readings, latencies) are exact
      rationals [Q]; comparisons and arithmetic are the exact ones, so IEEE
      rounding, infinities and NaN are outside the model.  Two results of
      the module depend on rounding: whether the deviation test of
      [validate_price_data] logs its warning for a price close to the
      threshold, and the value of [avg_latency_ms].  Where a statement
      below touches either, it leaves the outcome open or is about inputs
      on which rounding cannot change it (a price of 200 against a mean of
      100); verdicts, histories, counters, the queue and [max_latency_ms]
      rest on comparisons of the values themselves.
    - Python [int]s are [Z].
    - Python objects that are shared by reference (the data points) live in
      a heap [gmap ref MarketDataPoint]; the queue, the batches and the
      callers hold references into it.
    - Everything the code reads from the outside (the wall clock, whether the
      Kafka client or the database raises) is an explicit argument of the
      operation that reads it.
    - A coroutine that waits at [await queue.put(...)] on a full queue is an
      explicit outcome, [Suspended]. *)

From Stdlib Require Import QArith Qabs Ascii String.
From stdpp Require Import gmap strings list.

Local Open Scope Z_scope.

(** ** Rational helpers standing for float comparisons *)

Definition Qltb (a b : Q) : bool := negb (Qle_bool b a).

(** Python's [max(a, b)] on numbers: the first argument unless the second is
    strictly larger. *)
Definition Qmax_py (a b : Q) : Q := if Qltb a b then b else a.

(** Python's [sum(xs)]: a left fold from [0]. *)
Definition py_sum (xs : list Q) : Q := foldl Qplus (0 : Q) xs.

(** Python's [max(xs)] on a non-empty sequence. *)
Definition py_max_list (xs : list Q) : Q :=
  match xs with
  | [] => 0
  | x :: rest => foldl Qmax_py x rest
  end.

(** ** [collections.deque(maxlen=n)] *)

Record deque (A : Type) := Deque { dq_maxlen : nat; dq_items : list A }.
Arguments Deque {A} _ _.
Arguments dq_maxlen {A} _.
Arguments dq_items {A} _.

(** [d.append(x)]: append on the right; when the deque is at capacity the
    leftmost item is dropped. *)
Definition deque_append {A} (d : deque A) (x : A) : deque A :=
  let items := dq_items d ++ [x] in
  Deque (dq_maxlen d) (drop (length items - dq_maxlen d) items).

(** [list(d)[-k:]] *)
Definition last_k {A} (k : nat) (l : list A) : list A := drop (length l - k) l.

(** ** [datetime] and its ISO-8601 text form

    A [datetime] carries the calendar fields and its [tzinfo] ([None]: a
    naive datetime).  Of a [tzinfo] the module observes the UTC offset it
    gives the datetime, in microseconds.  [Timezone o] is the fixed-offset
    [datetime.timezone(timedelta(microseconds=o))]; [timezone.utc] is
    [Timezone 0].  [Zone key o fold_matters] is any other [tzinfo] object,
    named by [key] ([zoneinfo.ZoneInfo(key)] for instance), at a wall time
    where it gives the offset [o]; [fold_matters] tells whether the other
    value of the datetime's [fold] would give another offset (an ambiguous
    or skipped wall time).  The [fold] attribute itself is not a field: it
    is not printed, and comparisons see it only through [fold_matters].

    The printer follows [isoformat], [_format_time] and [_format_offset] of
    CPython's [Lib/datetime.py]; the parser follows [datetime_fromisoformat],
    [parse_isoformat_date], [parse_isoformat_time], [parse_hh_mm_ss_ff] and
    [tzinfo_from_isoformat_results] of [Modules/_datetimemodule.c], the
    implementation the interpreter loads, as of CPython 3.10.  Later
    versions accept further ISO-8601 spellings, where this parser raises;
    the strings [isoformat] prints are read the same way by all of them.
    Both are library code, not code of this repository. *)

Inductive tzinfo :=
| Timezone (offset : Z)
| Zone (key : string) (offset : Z) (fold_matters : bool).

Record datetime := Datetime {
  year : Z; month : Z; day : Z;
  hour : Z; minute : Z; second : Z; microsecond : Z;
  tz : option tzinfo
}.

Definition tz_offset (t : tzinfo) : Z :=
  match t with
  | Timezone o => o
  | Zone _ o _ => o
  end.

(** [d.utcoffset()], in microseconds. *)
Definition utcoffset (d : datetime) : option Z := tz_offset <$> tz d.

(** Whether [d.replace(fold=not d.fold).utcoffset()] differs from
    [d.utcoffset()]. *)
Definition fold_dependent (d : datetime) : bool :=
  match tz d with
  | Some (Zone _ _ b) => b
  | _ => false
  end.

Definition is_leap (y : Z) : bool :=
  (y mod 4 =? 0) && (negb (y mod 100 =? 0) || (y mod 400 =? 0)).

Definition days_in_month (y m : Z) : Z :=
  if m =? 2 then (if is_leap y then 29 else 28)
  else if (m =? 4) || (m =? 6) || (m =? 9) || (m =? 11) then 30
  else 31.

Definition microseconds_per_day : Z := 86400000000.

(** The range checks of the [datetime] and [timezone] constructors. *)
Definition valid_datetime (d : datetime) : bool :=
  (1 <=? year d) && (year d <=? 9999) &&
  (1 <=? month d) && (month d <=? 12) &&
  (1 <=? day d) && (day d <=? days_in_month (year d) (month d)) &&
  (0 <=? hour d) && (hour d <=? 23) &&
  (0 <=? minute d) && (minute d <=? 59) &&
  (0 <=? second d) && (second d <=? 59) &&
  (0 <=? microsecond d) && (microsecond d <=? 999999) &&
  match utcoffset d with
  | None => true
  | Some off => (- microseconds_per_day <? off) && (off <? microseconds_per_day)
  end.

Definition aware (d : datetime) : bool :=
  match utcoffset d with Some _ => true | None => false end.

Definition digit (z : Z) : ascii := ascii_of_nat (Z.to_nat (48 + z)).

Definition digit_val (c : ascii) : option Z :=
  let n := Z.of_nat (nat_of_ascii c) in
  if (48 <=? n) && (n <=? 57) then Some (n - 48) else None.

(** ["%02d" % z], ["%04d" % z] and ["%06d" % z] on values that fit. *)
Definition fmt2 (z : Z) : list ascii := [digit (z / 10 mod 10); digit (z mod 10)].
Definition fmt4 (z : Z) : list ascii :=
  [digit (z / 1000 mod 10); digit (z / 100 mod 10); digit (z / 10 mod 10); digit (z mod 10)].
Definition fmt6 (z : Z) : list ascii :=
  [digit (z / 100000 mod 10); digit (z / 10000 mod 10); digit (z / 1000 mod 10);
   digit (z / 100 mod 10); digit (z / 10 mod 10); digit (z mod 10)].

(** [int(s)] on a string of decimal digits ([None]: [ValueError]). *)
Fixpoint parse_digits_from (acc : Z) (s : list ascii) : option Z :=
  match s with
  | [] => Some acc
  | c :: rest =>
      match digit_val c with
      | Some v => parse_digits_from (10 * acc + v) rest
      | None => None
      end
  end.

Definition parse_int (s : list ascii) : option Z :=
  match s with
  | [] => None
  | _ => parse_digits_from 0 s
  end.

Definition colon : ascii := ":"%char.
Definition dash : ascii := "-"%char.
Definition plus_sign : ascii := "+"%char.
Definition dot : ascii := "."%char.

(** [_format_time(hh, mm, ss, us, 'auto')] *)
Definition format_time (hh mm ss us : Z) : list ascii :=
  fmt2 hh ++ [colon] ++ fmt2 mm ++ [colon] ++ fmt2 ss ++
  (if us =? 0 then [] else dot :: fmt6 us).

(** The digits of [_format_offset] for an offset of [a] microseconds,
    [a >= 0]: [HH:MM], then [:SS] when the offset has seconds or
    microseconds, then [.ffffff] when it has microseconds. *)
Definition format_offset_digits (a : Z) : list ascii :=
  let hh := a / 3600000000 in
  let r := a mod 3600000000 in
  let mm := r / 60000000 in
  let ss := r mod 60000000 in
  fmt2 hh ++ [colon] ++ fmt2 mm ++
  (if ss =? 0 then []
   else [colon] ++ fmt2 (ss / 1000000) ++
        (if ss mod 1000000 =? 0 then [] else dot :: fmt6 (ss mod 1000000))).

(** [_format_offset(off)] *)
Definition format_offset (off : option Z) : list ascii :=
  match off with
  | None => []
  | Some o => (if o <? 0 then dash else plus_sign) :: format_offset_digits (Z.abs o)
  end.

(** [datetime.isoformat()] with the default separator ['T']. *)
Definition isoformat_chars (d : datetime) : list ascii :=
  fmt4 (year d) ++ [dash] ++ fmt2 (month d) ++ [dash] ++ fmt2 (day d) ++ ["T"%char] ++
  format_time (hour d) (minute d) (second d) (microsecond d) ++
  format_offset (utcoffset d).

Definition isoformat (d : datetime) : string := string_of_list_ascii (isoformat_chars d).

(** [_parse_isoformat_date(dtstr)] on the first ten characters. *)
Definition parse_isoformat_date (s : list ascii) : option (Z * Z * Z) :=
  match s with
  | [y1; y2; y3; y4; s1; m1; m2; s2; d1; d2] =>
      if bool_decide (s1 = dash) && bool_decide (s2 = dash) then
        y ← parse_int [y1; y2; y3; y4];
        m ← parse_int [m1; m2];
        d ← parse_int [d1; d2];
        Some (y, m, d)
      else None
  | _ => None
  end.

(** The fraction after the ['.']: three or six digits. *)
Definition parse_fraction (frac : list ascii) : option Z :=
  if bool_decide (length frac = 3%nat) then v ← parse_int frac; Some (v * 1000)
  else if bool_decide (length frac = 6%nat) then parse_int frac
  else None.

(** [_parse_hh_mm_ss_ff(tstr)]: [HH[:MM[:SS[.fff[fff]]]]], the loop over the
    three components unrolled. *)
Definition parse_hh_mm_ss_ff (s : list ascii) : option (Z * Z * Z * Z) :=
  match s with
  | [h1; h2] => h ← parse_int [h1; h2]; Some (h, 0, 0, 0)
  | h1 :: h2 :: c1 :: m1 :: m2 :: rest1 =>
      h ← parse_int [h1; h2];
      if bool_decide (c1 = colon) then
        m ← parse_int [m1; m2];
        match rest1 with
        | [] => Some (h, m, 0, 0)
        | c2 :: s1 :: s2 :: rest2 =>
            if bool_decide (c2 = colon) then
              sec ← parse_int [s1; s2];
              match rest2 with
              | [] => Some (h, m, sec, 0)
              | c3 :: frac =>
                  if bool_decide (c3 = dot) then
                    us ← parse_fraction frac; Some (h, m, sec, us)
                  else None
              end
            else None
        | _ => None
        end
      else None
  | _ => None
  end.

(** The scan of [parse_isoformat_time] for the start of the offset: the
    index of the first ['+'] or ['-']. *)
Fixpoint find_sign (s : list ascii) : option nat :=
  match s with
  | [] => None
  | x :: rest =>
      if bool_decide (x = plus_sign) || bool_decide (x = dash) then Some 0%nat
      else S <$> find_sign rest
  end.

(** [parse_isoformat_time]: the time of day, then the offset that starts at
    the first sign, returned as whole seconds and microseconds, both
    signed. *)
Definition parse_isoformat_time (s : list ascii)
  : option (Z * Z * Z * Z * option (Z * Z)) :=
  match find_sign s with
  | None => '(h, m, sec, us) ← parse_hh_mm_ss_ff s; Some (h, m, sec, us, None)
  | Some i =>
      '(h, m, sec, us) ← parse_hh_mm_ss_ff (take i s);
      let tzstr := drop (S i) s in
      if bool_decide (length tzstr = 5%nat) || bool_decide (length tzstr = 8%nat)
         || bool_decide (length tzstr = 15%nat) then
        '(th, tm, ts, tus) ← parse_hh_mm_ss_ff tzstr;
        let tzsign := if bool_decide (s !! i = Some dash) then -1 else 1 in
        Some (h, m, sec, us, Some (tzsign * (th * 3600 + tm * 60 + ts), tzsign * tus))
      else None
  end.

(** [tzinfo_from_isoformat_results]: an offset of zero whole seconds gives
    [timezone.utc], whatever its microseconds; any other offset gives the
    fixed-offset timezone of that offset. *)
Definition tzinfo_from_isoformat_results (tzres : option (Z * Z)) : option tzinfo :=
  match tzres with
  | None => None
  | Some (tzoffset, tz_useconds) =>
      if tzoffset =? 0 then Some (Timezone 0)
      else Some (Timezone (tzoffset * 1000000 + tz_useconds))
  end.

(** The characters of a printed time of day or offset: digits, [':'] and
    ['.'], none of which is a sign. *)
Definition unsigned_chars (s : list ascii) : Prop :=
  Forall (λ x, x ≠ dash ∧ x ≠ plus_sign) s.

(** [datetime.fromisoformat(s)]; [None] stands for [ValueError].  A string
    of ten characters is a date at midnight; otherwise the time starts
    after the separator, the eleventh character. *)
Definition fromisoformat (str : string) : option datetime :=
  let s := list_ascii_of_string str in
  '(y, mo, d) ← parse_isoformat_date (take 10 s);
  '(h, mi, sec, us, tzres) ←
     (if bool_decide (length s ≤ 10)%nat then Some (0, 0, 0, 0, None)
      else parse_isoformat_time (drop 11 s));
  let dt := Datetime y mo d h mi sec us (tzinfo_from_isoformat_results tzres) in
  if valid_datetime dt then Some dt else None.

(** What [fromisoformat] makes of the text [isoformat] prints for [d]: the
    same calendar fields, and for an aware [d] the fixed-offset timezone of
    its offset, an offset under one second read back as [timezone.utc]. *)
Definition reparsed_tz (o : Z) : tzinfo :=
  if Z.abs o <? 1000000 then Timezone 0 else Timezone o.

Definition reparsed (d : datetime) : datetime :=
  Datetime (year d) (month d) (day d) (hour d) (minute d) (second d) (microsecond d)
           (reparsed_tz <$> utcoffset d).

(** ** Comparing datetimes

    [datetime.__eq__] of [Lib/datetime.py] ([_cmp] with [allow_mixed]):
    datetimes that share their [tzinfo] object compare by their fields; if
    either one's offset depends on its fold they are unequal; with equal
    offsets (or both naive) they compare by their fields; a naive and an
    aware one are unequal; otherwise they compare as instants. *)

Definition same_tzinfo (a b : option tzinfo) : bool :=
  match a, b with
  | None, None => true
  | Some (Timezone o1), Some (Timezone o2) => o1 =? o2
  | Some (Zone k1 _ _), Some (Zone k2 _ _) => bool_decide (k1 = k2)
  | _, _ => false
  end.

Definition same_fields (a b : datetime) : bool :=
  (year a =? year b) && (month a =? month b) && (day a =? day b) &&
  (hour a =? hour b) && (minute a =? minute b) && (second a =? second b) &&
  (microsecond a =? microsecond b).

(** [_days_before_year], [_days_before_month] and [_ymd2ord]. *)
Definition days_before_year (y : Z) : Z :=
  let y1 := y - 1 in y1 * 365 + y1 / 4 - y1 / 100 + y1 / 400.

Definition days_before_month (y m : Z) : Z :=
  nth (Z.to_nat (m - 1)) [0; 31; 59; 90; 120; 151; 181; 212; 243; 273; 304; 334] 0
  + (if (2 <? m) && is_leap y then 1 else 0).

Definition ymd2ord (y m d : Z) : Z := days_before_year y + days_before_month y m + d.

(** The instant of an aware datetime with offset [off], in microseconds
    from the start of day 0 of the proleptic calendar. *)
Definition utc_microseconds (d : datetime) (off : Z) : Z :=
  (((ymd2ord (year d) (month d) (day d) * 24 + hour d) * 60 + minute d) * 60 + second d)
  * 1000000 + microsecond d - off.

Definition datetime_eq (a b : datetime) : bool :=
  if same_tzinfo (tz a) (tz b) then same_fields a b
  else if fold_dependent a || fold_dependent b then false
  else
    match utcoffset a, utcoffset b with
    | None, None => same_fields a b
    | Some oa, Some ob =>
        if oa =? ob then same_fields a b
        else utc_microseconds a oa =? utc_microseconds b ob
    | _, _ => false
    end.

(** [==] on an optional timestamp: [None == None], and [None] differs from
    every datetime. *)
Definition timestamp_eq (a b : option datetime) : bool :=
  match a, b with
  | Some x, Some y => datetime_eq x y
  | None, None => true
  | _, _ => false
  end.

(** ** Python values and dictionaries

    The values a data point's dictionary form and its [metadata] can hold.
    A [dict] keeps its keys in insertion order; assigning to an existing key
    replaces its value in place. *)

#[warnings="-register-all"]
Inductive pyval :=
| VNone
| VInt (z : Z)
| VFloat (q : Q)
| VStr (s : string)
| VDatetime (d : datetime)
| VDict (kvs : list (string * pyval)).

Abbreviation pydict := (list (string * pyval)).

Fixpoint dict_get (k : string) (d : pydict) : option pyval :=
  match d with
  | [] => None
  | (k', v) :: rest => if bool_decide (k' = k) then Some v else dict_get k rest
  end.

Fixpoint dict_set (k : string) (v : pyval) (d : pydict) : pydict :=
  match d with
  | [] => [(k, v)]
  | (k', v') :: rest =>
      if bool_decide (k' = k) then (k, v) :: rest else (k', v') :: dict_set k v rest
  end.

(** ** [MarketDataPoint] *)

Record MarketDataPoint := mkMarketDataPoint {
  symbol : string;
  timestamp : option datetime;
  price : Q;
  volume : Z;
  bid : option Q;
  ask : option Q;
  source : string;
  data_type : string;
  metadata : option pydict
}.

Definition opt_val {A} (f : A → pyval) (o : option A) : pyval :=
  match o with Some a => f a | None => VNone end.

(** [dataclasses.asdict(self)]: every field, in declaration order. *)
Definition asdict (p : MarketDataPoint) : pydict :=
  [ ("symbol"%string, VStr (symbol p));
    ("timestamp"%string, opt_val VDatetime (timestamp p));
    ("price"%string, VFloat (price p));
    ("volume"%string, VInt (volume p));
    ("bid"%string, opt_val VFloat (bid p));
    ("ask"%string, opt_val VFloat (ask p));
    ("source"%string, VStr (source p));
    ("data_type"%string, VStr (data_type p));
    ("metadata"%string, opt_val VDict (metadata p)) ].

(** [MarketDataPoint.to_dict]; [None] is the [AttributeError] raised by
    [self.timestamp.isoformat()] when the timestamp is [None]. *)
Definition to_dict (p : MarketDataPoint) : option pydict :=
  match timestamp p with
  | None => None
  | Some d => Some (dict_set "timestamp" (VStr (isoformat d)) (asdict p))
  end.

Definition field_names : list string :=
  ["symbol"; "timestamp"; "price"; "volume"; "bid"; "ask"; "source"; "data_type";
   "metadata"]%string.

Definition as_str (v : pyval) : option string :=
  match v with VStr s => Some s | _ => None end.
Definition as_float (v : pyval) : option Q :=
  match v with VFloat q => Some q | _ => None end.
Definition as_int (v : pyval) : option Z :=
  match v with VInt z => Some z | _ => None end.
Definition as_opt_float (v : pyval) : option (option Q) :=
  match v with VFloat q => Some (Some q) | VNone => Some None | _ => None end.
Definition as_opt_datetime (v : pyval) : option (option datetime) :=
  match v with VDatetime d => Some (Some d) | VNone => Some None | _ => None end.
Definition as_opt_dict (v : pyval) : option (option pydict) :=
  match v with VDict d => Some (Some d) | VNone => Some None | _ => None end.

(** A keyword argument with a default value. *)
Definition kwarg {A} (k : string) (conv : pyval → option A) (dflt : A) (d : pydict)
  : option A :=
  match dict_get k d with
  | Some v => conv v
  | None => Some dflt
  end.

(** The constructor call of [from_dict], which passes the dictionary's
    items as keyword arguments to the generated [__init__].  Unknown keywords and missing
    required fields raise [TypeError] ([None]).  The record is typed as the
    dataclass is annotated, so a value outside a field's annotated type is
    refused here, where Python would store it unchecked. *)
Definition construct (data : pydict) : option MarketDataPoint :=
  if forallb (λ kv, bool_decide (kv.1 ∈ field_names)) data then
    sym ← dict_get "symbol" data ≫= as_str;
    ts ← dict_get "timestamp" data ≫= as_opt_datetime;
    pr ← dict_get "price" data ≫= as_float;
    vol ← dict_get "volume" data ≫= as_int;
    b ← kwarg "bid" as_opt_float None data;
    a ← kwarg "ask" as_opt_float None data;
    src ← kwarg "source" as_str "unknown"%string data;
    dty ← kwarg "data_type" as_str "price"%string data;
    md ← kwarg "metadata" as_opt_dict None data;
    Some (mkMarketDataPoint sym ts pr vol b a src dty md)
  else None.

(** [MarketDataPoint.from_dict]: a textual timestamp is parsed, then the
    dictionary's items are passed to the constructor.  [None] stands for the
    [KeyError], [ValueError] or [TypeError] the call raises. *)
Definition from_dict (data : pydict) : option MarketDataPoint :=
  ts ← dict_get "timestamp" data;
  match ts with
  | VStr s =>
      d ← fromisoformat s;
      construct (dict_set "timestamp" (VDatetime d) data)
  | _ => construct data
  end.

(** ** Log records

    What the module hands to [logger]; the log is part of the state so that
    "flags an anomaly" is observable. *)

Inductive LogRecord :=
| InvalidPrice (sym : string) (p : Q)
| InvalidVolume (sym : string) (v : Z)
| PriceAnomaly (sym : string) (p avg : Q)
| ValidationError
| IngestError
| TopicCreated (topic : string)
| TopicCreateFailed (topic : string)
| PublishFailed
| StoreBatchFailed
| BatchStored (n : nat)
| BatchStoreWarning (n : nat)
| AlreadyRunning
| Starting
| Started
| Stopping
| Stopped.

(** ** [DataQualityValidator] *)

Record DataQualityValidator := mkValidator {
  price_history : gmap string (deque Q);
  max_history : nat
}.

(** [DataQualityValidator.__init__] *)
Definition new_validator : DataQualityValidator := mkValidator ∅ 100.

(** [self.price_history[symbol]] after the membership test: the stored
    deque, or the empty one created for a symbol seen for the first time. *)
Definition history_of (v : DataQualityValidator) (sym : string) : deque Q :=
  match price_history v !! sym with
  | Some h => h
  | None => Deque (max_history v) []
  end.

(** [avg_price]: the mean of [list(history)[-10:]], in exact arithmetic. *)
Definition recent_mean (h : deque Q) : Q :=
  (py_sum (last_k 10 (dq_items h)) / inject_Z (Z.of_nat (length (last_k 10 (dq_items h)))))%Q.

(** [validate_price_data]: the verdict, the validator after the call and
    the records logged.  The only operation of the body that can raise on
    well-typed input is the division by [avg_price]; the [except] clause
    turns it into a rejection. *)
Definition validate_price_data (v : DataQualityValidator) (dp : MarketDataPoint)
  : bool * DataQualityValidator * list LogRecord :=
  if Qle_bool (price dp) 0 then (false, v, [InvalidPrice (symbol dp) (price dp)])
  else if volume dp <? 0 then (false, v, [InvalidVolume (symbol dp) (volume dp)])
  else
    let sym := symbol dp in
    let history := history_of v sym in
    let v1 := mkValidator (<[sym := history]> (price_history v)) (max_history v) in
    let accept (flags : list LogRecord) :=
      (true,
       mkValidator (<[sym := deque_append history (price dp)]> (price_history v))
                   (max_history v),
       flags) in
    if (10 <? length (dq_items history))%nat then
      let avg_price := recent_mean history in
      if Qeq_bool avg_price 0 then (false, v1, [ValidationError])
      else if Qltb (1 # 2) (Qabs (price dp - avg_price) / avg_price)%Q
      then accept [PriceAnomaly sym (price dp) avg_price]
      else accept []
    else accept [].

(** The condition under which the validator logs its anomaly warning: the
    history is past the warm-up of ten prices and the price is more than 50
    percent away from the recent mean, relative to that mean. *)
Definition anomalous (h : deque Q) (p : Q) : Prop :=
  (10 < length (dq_items h))%nat ∧
  (1 # 2 < Qabs (p - recent_mean h) / recent_mean h)%Q.

(** ** The object heap

    Data points are Python objects passed by reference: the caller, the
    queue and the batch all hold the same object.  A [ref] names an object
    of the heap. *)

Definition ref := nat.
Abbreviation heap := (gmap ref MarketDataPoint).

(** ** [KafkaStreamer] *)

Record KafkaStreamer := mkKafka {
  bootstrap_servers : string;
  producer : bool;                    (* [self.producer is not None] *)
  admin_client : bool;                (* [self.admin_client is not None] *)
  topics_created : gset string;
  producer_closed : bool;             (* [producer.close()] was called *)
  kafka_sent : list (string * pydict) (* the messages handed to [producer.send] *)
}.

(** What the broker answers to [create_topics]. *)
Inductive CreateOutcome := CreateOk | CreateAlreadyExists | CreateError.

Record KafkaEnv := mkKafkaEnv {
  create_outcome : CreateOutcome;
  send_raises : bool
}.

(** [KafkaStreamer.create_topic] *)
Definition create_topic (o : CreateOutcome) (k : KafkaStreamer) (topic : string)
  : KafkaStreamer * list LogRecord :=
  if negb (admin_client k) || bool_decide (topic ∈ topics_created k) then (k, [])
  else
    match o with
    | CreateOk =>
        (mkKafka (bootstrap_servers k) (producer k) (admin_client k)
                 ({[topic]} ∪ topics_created k) (producer_closed k) (kafka_sent k),
         [TopicCreated topic])
    | CreateAlreadyExists => (k, [])
    | CreateError => (k, [TopicCreateFailed topic])
    end.

(** [KafkaStreamer.publish_data]: the point is only read; what is sent is
    the fresh dictionary built by [to_dict]. *)
Definition publish_data (env : KafkaEnv) (k : KafkaStreamer) (topic : string)
           (dp : MarketDataPoint) : bool * KafkaStreamer * list LogRecord :=
  if negb (producer k) then (false, k, [])
  else
    let '(k1, lg) := create_topic (create_outcome env) k topic in
    match to_dict dp with
    | None => (false, k1, lg ++ [PublishFailed])
    | Some d =>
        if send_raises env || producer_closed k1 then (false, k1, lg ++ [PublishFailed])
        else
          (true,
           mkKafka (bootstrap_servers k1) (producer k1) (admin_client k1)
                   (topics_created k1) (producer_closed k1) (kafka_sent k1 ++ [(topic, d)]),
           lg)
    end.

(** [KafkaStreamer.close] *)
Definition kafka_close (k : KafkaStreamer) : KafkaStreamer :=
  if producer k then
    mkKafka (bootstrap_servers k) (producer k) (admin_client k) (topics_created k)
            true (kafka_sent k)
  else k.

(** [str.lower()] on ASCII letters. *)
Definition ascii_lower (c : ascii) : ascii :=
  let n := nat_of_ascii c in
  if (65 <=? n)%nat && (n <=? 90)%nat then ascii_of_nat (n + 32) else c.

Fixpoint lower (s : string) : string :=
  match s with
  | EmptyString => EmptyString
  | String c rest => String (ascii_lower c) (lower rest)
  end.

(** [f"market_data_{data_point.symbol.lower()}"] *)
Definition topic_of (sym : string) : string := ("market_data_" ++ lower sym)%string.

(** ** [PostgreSQLStorage] *)

Record Row := mkRow {
  row_symbol : string;
  row_timestamp : option datetime;
  row_price : Q;
  row_volume : Z;
  row_bid : option Q;
  row_ask : option Q;
  row_source : string;
  row_data_type : string;
  row_metadata : option pydict
}.

(** A transaction on table [market_data]: the committed rows and the rows
    inserted but not yet committed on the checked-out connection. *)
Record Txn := mkTxn { committed : list Row; pending : list Row }.

Definition commit (t : Txn) : Txn := mkTxn (committed t ++ pending t) [].
Definition rollback (t : Txn) : Txn := mkTxn (committed t) [].

(** What the database does to one [store_batch] call: nothing wrong, no
    connection, an error in [execute_values] after [inserted] rows went in,
    or an error at [commit]. *)
Inductive DbFault :=
| NoFault
| GetconnFails
| ExecuteFails (inserted : nat)
| CommitFails.

Record PostgreSQLStorage := mkStorage {
  pool : bool;                (* [self.pool is not None] *)
  pool_closed : bool;         (* [pool.closeall()] was called *)
  market_data : list Row      (* the committed rows of table [market_data] *)
}.

(** [json.dumps] raises [TypeError] on a value that is not JSON
    serialisable; of the values modelled, a [datetime] is not. *)
Fixpoint json_serialisable (v : pyval) : bool :=
  match v with
  | VDatetime _ => false
  | VDict kvs =>
      (fix all (l : list (string * pyval)) : bool :=
         match l with
         | [] => true
         | (_, x) :: rest => json_serialisable x && all rest
         end) kvs
  | _ => true
  end.

(** The tuple [store_batch] builds for one point; [None] when [json.dumps]
    raises. *)
Definition row_of (dp : MarketDataPoint) : option Row :=
  md ← (match metadata dp with
        | None | Some [] => Some None
        | Some m => if json_serialisable (VDict m) then Some (Some m) else None
        end);
  Some (mkRow (symbol dp) (timestamp dp) (price dp) (volume dp) (bid dp) (ask dp)
              (source dp) (data_type dp) md).

(** The [values] list of a batch of references; a reference that names no
    object cannot occur in Python and counts as a raising row. *)
Definition rows_of (h : heap) (data_points : list ref) : option (list Row) :=
  mapM (λ r, h !! r ≫= row_of) data_points.

(** [PostgreSQLStorage.store_batch].  The body of the [try]: check out a
    connection, build the rows, [execute_values], [commit]; the [finally]
    returns the connection to the pool, which rolls back whatever is still
    pending; any exception yields [False]. *)
Definition store_batch (fault : DbFault) (h : heap) (s : PostgreSQLStorage)
           (data_points : list ref) : bool * PostgreSQLStorage * list LogRecord :=
  if negb (pool s) || bool_decide (data_points = []) then (false, s, [])
  else
    let getconn_ok :=
      negb (pool_closed s) && match fault with GetconnFails => false | _ => true end in
    if negb getconn_ok then (false, s, [StoreBatchFailed])
    else
      let t0 := mkTxn (market_data s) [] in
      let result : bool * Txn :=
        match rows_of h data_points with
        | None => (false, t0)
        | Some values =>
            match fault with
            | ExecuteFails n => (false, mkTxn (committed t0) (take n values))
            | CommitFails => (false, mkTxn (committed t0) values)
            | _ => (true, commit (mkTxn (committed t0) values))
            end
        end in
      let t_final := rollback result.2 in
      (result.1, mkStorage (pool s) (pool_closed s) (committed t_final),
       if result.1 then [] else [StoreBatchFailed]).


(** [PostgreSQLStorage.close] *)
Definition storage_close (s : PostgreSQLStorage) : PostgreSQLStorage :=
  if pool s then mkStorage (pool s) true (market_data s) else s.

(** ** [DataIngestionPipeline] *)

Record Metrics := mkMetrics {
  total_processed : Z;
  valid_points : Z;
  rejected_points : Z;
  start_time : option Q;
  last_batch_time : option Q;
  latency_samples : deque Q
}.

(** [asyncio.Queue(maxsize=n)]: FIFO, bounded when [n > 0]. *)
Record AsyncQueue := mkQueue { maxsize : Z; queue_items : list ref }.

(** [Queue.full()] *)
Definition full (q : AsyncQueue) : bool :=
  (0 <? maxsize q) && (maxsize q <=? Z.of_nat (length (queue_items q))).

Definition put_nowait (q : AsyncQueue) (r : ref) : AsyncQueue :=
  mkQueue (maxsize q) (queue_items q ++ [r]).

Definition queue_get (q : AsyncQueue) : option (ref * AsyncQueue) :=
  match queue_items q with
  | [] => None
  | r :: rest => Some (r, mkQueue (maxsize q) rest)
  end.

Record DataIngestionPipeline := mkPipeline {
  running : bool;
  data_queue : AsyncQueue;
  batch_size : Z;
  batch_timeout : Q;
  validator : DataQualityValidator;
  kafka_streamer : option KafkaStreamer;
  postgres_storage : option PostgreSQLStorage;
  metrics : Metrics
}.

(** [DataIngestionPipeline.__init__], given the two settings read from the
    configuration and the sinks the configuration enables. *)
Definition new_pipeline (bs : Z) (bt : Q) (k : option KafkaStreamer)
           (s : option PostgreSQLStorage) : DataIngestionPipeline :=
  mkPipeline false (mkQueue 10000 []) bs bt new_validator k s
             (mkMetrics 0 0 0 None None (Deque 1000 [])).

(** The state the operations act on: the object heap, the pipeline object,
    the calls of [ingest_data_point] parked at the [put] (named by their
    data point), the number of batch-processor tasks created so far and the
    log. *)
Record World := mkWorld {
  objects : heap;
  pipeline : DataIngestionPipeline;
  waiting : list ref;
  tasks_created : nat;
  log : list LogRecord
}.

Definition new_world (h : heap) (p : DataIngestionPipeline) : World := mkWorld h p [] 0 [].

Definition set_validator (p : DataIngestionPipeline) (v : DataQualityValidator) :=
  mkPipeline (running p) (data_queue p) (batch_size p) (batch_timeout p) v
             (kafka_streamer p) (postgres_storage p) (metrics p).

Definition set_metrics (p : DataIngestionPipeline) (m : Metrics) :=
  mkPipeline (running p) (data_queue p) (batch_size p) (batch_timeout p) (validator p)
             (kafka_streamer p) (postgres_storage p) m.

Definition set_queue (p : DataIngestionPipeline) (q : AsyncQueue) :=
  mkPipeline (running p) q (batch_size p) (batch_timeout p) (validator p)
             (kafka_streamer p) (postgres_storage p) (metrics p).

Definition set_kafka (p : DataIngestionPipeline) (k : option KafkaStreamer) :=
  mkPipeline (running p) (data_queue p) (batch_size p) (batch_timeout p) (validator p)
             k (postgres_storage p) (metrics p).

Definition set_storage (p : DataIngestionPipeline) (s : option PostgreSQLStorage) :=
  mkPipeline (running p) (data_queue p) (batch_size p) (batch_timeout p) (validator p)
             (kafka_streamer p) s (metrics p).

Definition set_running (p : DataIngestionPipeline) (b : bool) :=
  mkPipeline b (data_queue p) (batch_size p) (batch_timeout p) (validator p)
             (kafka_streamer p) (postgres_storage p) (metrics p).

Definition count_rejected (m : Metrics) : Metrics :=
  mkMetrics (total_processed m) (valid_points m) (rejected_points m + 1)
            (start_time m) (last_batch_time m) (latency_samples m).

Definition count_accepted (latency_ms : Q) (m : Metrics) : Metrics :=
  mkMetrics (total_processed m + 1) (valid_points m + 1) (rejected_points m)
            (start_time m) (last_batch_time m) (deque_append (latency_samples m) latency_ms).

(** *** [ingest_data_point] *)

(** What one call reads from outside: [time.time()] on entry,
    [datetime.now(timezone.utc)], the Kafka client's behaviour and
    [time.time()] on exit. *)
Record IngestEnv := mkIngestEnv {
  t_enter : Q;
  now_utc : datetime;
  kafka_env : KafkaEnv;
  t_exit : Q
}.

(** How a call of the coroutine ends: it returns a boolean, or it is left
    waiting at [await self.data_queue.put(data_point)]. *)
Inductive Outcome := Returned (b : bool) | Suspended.

(** [data_point.timestamp = datetime.now(timezone.utc)] *)
Definition set_timestamp (dp : MarketDataPoint) (now : datetime) : MarketDataPoint :=
  mkMarketDataPoint (symbol dp) (Some now) (price dp) (volume dp) (bid dp) (ask dp)
                    (source dp) (data_type dp) (metadata dp).

(** The part of the body after the [await]: the point enters the queue, is
    published when a streamer is configured, and the counters and the
    latency sample are recorded. *)
Definition ingest_finish (env : IngestEnv) (r : ref) (w : World) : option (Outcome * World) :=
  dp ← objects w !! r;
  let p := pipeline w in
  let q' := put_nowait (data_queue p) r in
  let '(k', lg) :=
    match kafka_streamer p with
    | Some k =>
        let '(_, k1, lg) := publish_data (kafka_env env) k (topic_of (symbol dp)) dp in
        (Some k1, lg)
    | None => (None, [])
    end in
  let latency_ms := ((t_exit env - t_enter env) * 1000)%Q in
  let p' := set_metrics (set_kafka (set_queue p q') k') (count_accepted latency_ms (metrics p)) in
  Some (Returned true, mkWorld (objects w) p' (waiting w) (tasks_created w) (log w ++ lg)).

(** [list.remove(x)]: drop the first occurrence. *)
Fixpoint remove_first (r : ref) (l : list ref) : list ref :=
  match l with
  | [] => []
  | x :: rest => if bool_decide (x = r) then rest else x :: remove_first r rest
  end.

(** A call parked at the [put] is woken up: it goes on when a slot is free
    and parks again otherwise.  [None] when no call is parked for [r]. *)
Definition resume_put (env : IngestEnv) (r : ref) (w : World) : option (Outcome * World) :=
  if bool_decide (r ∈ waiting w) then
    if full (data_queue (pipeline w)) then Some (Suspended, w)
    else
      ingest_finish env r
        (mkWorld (objects w) (pipeline w) (remove_first r (waiting w)) (tasks_created w)
                 (log w))
  else None.

(** [DataIngestionPipeline.ingest_data_point] called on the object [r].
    [None] only when [r] names no object. *)
Definition ingest_data_point (env : IngestEnv) (r : ref) (w : World)
  : option (Outcome * World) :=
  dp ← objects w !! r;
  let p := pipeline w in
  let '(ok, v', lg) := validate_price_data (validator p) dp in
  let p1 := set_validator p v' in
  if negb ok then
    Some (Returned false,
          mkWorld (objects w) (set_metrics p1 (count_rejected (metrics p1)))
                  (waiting w) (tasks_created w) (log w ++ lg))
  else
    let objects1 :=
      match timestamp dp with
      | Some _ => objects w
      | None => <[r := set_timestamp dp (now_utc env)]> (objects w)
      end in
    if full (data_queue p1) then
      Some (Suspended,
            mkWorld objects1 p1 (waiting w ++ [r]) (tasks_created w) (log w ++ lg))
    else ingest_finish env r (mkWorld objects1 p1 (waiting w) (tasks_created w) (log w ++ lg)).

(** *** [_batch_processor] *)

(** The locals of one running batch-processor coroutine. *)
Record BatchProcessor := mkProc { batch : list ref; last_flush : Q }.

(** [batch = []; last_flush = time.time()] *)
Definition new_processor (t : Q) : BatchProcessor := mkProc [] t.

(** What one iteration reads from outside: [time.time()] after the dequeue
    attempt and the database's behaviour during the write. *)
Record ProcEnv := mkProcEnv { current_time : Q; db_fault : DbFault }.

(** What a flush did: the batch handed over, and the result of
    [store_batch] when a storage sink is configured. *)
Record FlushRecord := mkFlush { flushed : list ref; stored : option bool }.

(** The flush condition, on the batch as it is after the dequeue attempt. *)
Definition should_flush (p : DataIngestionPipeline) (bp_batch : list ref)
           (elapsed : Q) : bool :=
  (batch_size p <=? Z.of_nat (length bp_batch))
  || (negb (bool_decide (bp_batch = [])) && Qle_bool (batch_timeout p) elapsed).

(** The dequeue attempt: [wait_for(self.data_queue.get(), timeout=0.1)]
    appends the head of the queue to the batch; on [TimeoutError] (nothing
    queued) the batch stays as it is. *)
Definition dequeue_into (b : list ref) (q : AsyncQueue) : list ref * AsyncQueue :=
  match queue_get q with
  | Some (r, q') => (b ++ [r], q')
  | None => (b, q)
  end.

(** One iteration of the [while self.running] loop: the dequeue attempt,
    then a flush when the condition holds and the batch is not empty. *)
Definition batch_processor_iteration (env : ProcEnv) (w : World) (bp : BatchProcessor)
  : World * BatchProcessor * option FlushRecord :=
  let p := pipeline w in
  let '(batch1, q1) := dequeue_into (batch bp) (data_queue p) in
  let p1 := set_queue p q1 in
  if should_flush p batch1 (current_time env - last_flush bp)%Q
     && negb (bool_decide (batch1 = []))
  then
    let '(res, s', lg) :=
      match postgres_storage p with
      | Some s =>
          let '(ok, s1, lg) := store_batch (db_fault env) (objects w) s batch1 in
          (Some ok, Some s1,
           lg ++ [if ok then BatchStored (length batch1)
                  else BatchStoreWarning (length batch1)])
      | None => (None, None, [])
      end in
    let m := metrics p in
    let m' := mkMetrics (total_processed m) (valid_points m) (rejected_points m)
                        (start_time m) (Some (current_time env)) (latency_samples m) in
    (mkWorld (objects w) (set_metrics (set_storage p1 s') m') (waiting w) (tasks_created w)
             (log w ++ lg),
     mkProc [] (current_time env),
     Some (mkFlush batch1 res))
  else
    (mkWorld (objects w) p1 (waiting w) (tasks_created w) (log w),
     mkProc batch1 (last_flush bp), None).

(** Whether an iteration flushes, read off the state it starts in. *)
Definition flush_taken (env : ProcEnv) (w : World) (bp : BatchProcessor) : bool :=
  let b1 := (dequeue_into (batch bp) (data_queue (pipeline w))).1 in
  should_flush (pipeline w) b1 (current_time env - last_flush bp)%Q
  && negb (bool_decide (b1 = [])).

(** The loop test: an iteration runs only while [self.running]. *)
Definition batch_processor_step (env : ProcEnv) (w : World) (bp : BatchProcessor)
  : option (World * BatchProcessor * option FlushRecord) :=
  if running (pipeline w) then Some (batch_processor_iteration env w bp) else None.

(** *** [get_metrics] *)

Record MetricsSnapshot := mkSnapshot {
  snap_total_processed : Z;
  snap_valid_points : Z;
  snap_rejected_points : Z;
  snap_start_time : option Q;
  snap_last_batch_time : option Q;
  throughput_per_sec : Q;
  avg_latency_ms : Q;
  max_latency_ms : Q;
  queue_size : nat
}.

(** Truth value of [metrics['start_time']]: [None] and [0.0] are false. *)
Definition start_time_set (o : option Q) : bool :=
  match o with
  | Some t => negb (Qeq_bool t 0)
  | None => false
  end.

Definition get_metrics (now : Q) (p : DataIngestionPipeline) : MetricsSnapshot :=
  let m := metrics p in
  let throughput :=
    match start_time m with
    | Some t0 =>
        if start_time_set (start_time m)
        then (inject_Z (total_processed m) / Qmax_py (now - t0) 1)%Q
        else 0%Q
    | None => 0%Q
    end in
  let samples := dq_items (latency_samples m) in
  let '(avg, mx) :=
    match samples with
    | [] => (0%Q, 0%Q)
    | _ => ((py_sum samples / inject_Z (Z.of_nat (length samples)))%Q, py_max_list samples)
    end in
  mkSnapshot (total_processed m) (valid_points m) (rejected_points m) (start_time m)
             (last_batch_time m) throughput avg mx (length (queue_items (data_queue p))).

(** *** [start] and [stop] *)

(** [start()], reading [time.time()] once. *)
Definition start (now : Q) (w : World) : World :=
  let p := pipeline w in
  if running p then
    mkWorld (objects w) p (waiting w) (tasks_created w) (log w ++ [AlreadyRunning])
  else
    let m := metrics p in
    let m' := mkMetrics (total_processed m) (valid_points m) (rejected_points m)
                        (Some now) (last_batch_time m) (latency_samples m) in
    mkWorld (objects w) (set_metrics (set_running p true) m') (waiting w)
            (S (tasks_created w)) (log w ++ [Starting; Started]).

(** [stop()] *)
Definition stop (w : World) : World :=
  let p := pipeline w in
  if negb (running p) then w
  else
    let p' := set_storage (set_kafka (set_running p false)
                                     (kafka_close <$> kafka_streamer p))
                          (storage_close <$> postgres_storage p) in
    mkWorld (objects w) p' (waiting w) (tasks_created w) (log w ++ [Stopping; Stopped]).

(** ** Runs of the system *)

(** One atomic step of the pipeline between two suspension points: a call
    of [ingest_data_point], the wake-up of a parked call, one iteration of
    a batch processor, [start], [stop], or a connector constructing a new
    data point. *)
Inductive pipeline_step : World → World → Prop :=
| step_ingest env r w o w' :
    ingest_data_point env r w = Some (o, w') → pipeline_step w w'
| step_resume env r w o w' :
    resume_put env r w = Some (o, w') → pipeline_step w w'
| step_iteration env w bp w' bp' fl :
    batch_processor_step env w bp = Some (w', bp', fl) → pipeline_step w w'
| step_start t w : pipeline_step w (start t w)
| step_stop w : pipeline_step w (stop w)
| step_new_point r dp w :
    objects w !! r = None →
    pipeline_step w (mkWorld (<[r := dp]> (objects w)) (pipeline w) (waiting w)
                             (tasks_created w) (log w)).

(** The states a pipeline can be in: those a freshly constructed pipeline
    reaches by steps. *)
Definition reachable (w : World) : Prop :=
  ∃ h bs bt k s, rtc pipeline_step (new_world h (new_pipeline bs bt k s)) w.

(** A sequence of calls of [ingest_data_point] by callers that go on after a
    call has returned or has been parked; the outcomes are collected. *)
Fixpoint ingest_all (calls : list (IngestEnv * ref)) (w : World)
  : option (list Outcome * World) :=
  match calls with
  | [] => Some ([], w)
  | (env, r) :: rest =>
      '(o, w1) ← ingest_data_point env r w;
      '(os, w2) ← ingest_all rest w1;
      Some (o :: os, w2)
  end.

(** Consecutive iterations of one batch processor, with the flushes they
    performed in order. *)
Fixpoint run_processor (envs : list ProcEnv) (w : World) (bp : BatchProcessor)
  : World * BatchProcessor * list FlushRecord :=
  match envs with
  | [] => (w, bp, [])
  | env :: rest =>
      let '(w1, bp1, fl) := batch_processor_iteration env w bp in
      let '(w2, bp2, fls) := run_processor rest w1 bp1 in
      (w2, bp2, option_list fl ++ fls)
  end.

(** The life of one batch-processor task: it starts with an empty batch,
    runs iterations while the pipeline is running, and between its
    iterations the rest of the system takes steps.  [taken] lists the
    points the task has dequeued and [fls] the flushes it has performed. *)
Inductive processor_run : World → BatchProcessor → list ref → list FlushRecord → Prop :=
| run_begin w t : processor_run w (new_processor t) [] []
| run_iteration env w bp taken fls w' bp' fl :
    processor_run w bp taken fls →
    batch_processor_step env w bp = Some (w', bp', fl) →
    processor_run w' bp'
                  (taken ++ take 1 (queue_items (data_queue (pipeline w))))
                  (fls ++ option_list fl)
| run_interleaved w bp taken fls w' :
    processor_run w bp taken fls →
    pipeline_step w w' →
    processor_run w' bp taken fls.

(** The validator's history holds accepted prices only, and accepted prices
    are positive. *)
Definition history_positive (v : DataQualityValidator) : Prop :=
  map_Forall (λ _ h, Forall (λ q, (0 < q)%Q) (dq_items h)) (price_history v).

(** The two counters [ingest_data_point] raises together. *)
Definition counters_agree (w : World) : Prop :=
  total_processed (metrics (pipeline w)) = valid_points (metrics (pipeline w)).

(** What holds of every state of a pipeline built by [new_pipeline]. *)
Record pipeline_inv (w : World) : Prop := mkInv {
  inv_history : history_positive (validator (pipeline w));
  inv_counters : counters_agree w;
  inv_maxsize : maxsize (data_queue (pipeline w)) = 10000
}.

(** How many calls of a sequence ended with a given outcome. *)
Definition returned_true (o : Outcome) : bool :=
  match o with Returned true => true | _ => false end.
Definition returned_false (o : Outcome) : bool :=
  match o with Returned false => true | _ => false end.
Definition count_outcomes (f : Outcome → bool) (os : list Outcome) : Z :=
  Z.of_nat (length (filter (λ o, f o = true) os)).



(** ** Sample inputs

    Concrete values on which the statements below are instantiated. *)

Definition sample_instant : datetime := Datetime 2024 3 7 9 5 0 123 (Some (Timezone 0)).

Definition sample_env : IngestEnv :=
  mkIngestEnv 0 sample_instant (mkKafkaEnv CreateOk false) (1 # 1000).

Definition sample_point (p : Q) (vol : Z) : MarketDataPoint :=
  mkMarketDataPoint "AAPL" (Some sample_instant) p vol None None "test" "price" None.

(** Three objects: a point at 100, one at 200 and one with a negative
    price; a pipeline with the default settings and no sinks. *)
Definition sample_heap : heap :=
  {[ 0%nat := sample_point 100 10; 1%nat := sample_point 200 10;
     2%nat := sample_point (-1) 10 ]}.

Definition sample_world : World := new_world sample_heap (new_pipeline 100 1 None None).

(** A valid point, a rejected one and another valid one, ingested in turn. *)
Definition sample_calls : list (IngestEnv * ref) :=
  [(sample_env, 0%nat); (sample_env, 2%nat); (sample_env, 1%nat)].

Definition world_after (calls : list (IngestEnv * ref)) (w : World) : World :=
  default w (snd <$> ingest_all calls w).

(** The same valid point ingested 10000 times with no batch processor
    running: the queue is at capacity. *)
Definition fill_calls : list (IngestEnv * ref) := repeat (sample_env, 0%nat) (Z.to_nat 10000).

Definition full_world : World := world_after fill_calls sample_world.


Definition sample_proc_env : ProcEnv := mkProcEnv 0 NoFault.

(** A pipeline configured with [batch_size = 0], before and after one
    valid point was ingested. *)
Definition zero_batch_world : World := new_world sample_heap (new_pipeline 0 1 None None).

Definition zero_batch_world_one : World := world_after [(sample_env, 0%nat)] zero_batch_world.

(** A pipeline with a storage sink, holding one ingested point. *)
Definition stored_world : World :=
  world_after [(sample_env, 0%nat)]
              (new_world sample_heap
                         (new_pipeline 1 1 None (Some (mkStorage true false [])))).

(** A started pipeline with [batch_size = 2] and no sinks that has accepted
    three points, and the states of its batch processor after the first
    iteration, which dequeues a point, and after the second, which dequeues
    another and flushes the two. *)
Definition paired_world : World :=
  start 0 (world_after [(sample_env, 0%nat); (sample_env, 1%nat); (sample_env, 0%nat)]
                       (new_world sample_heap (new_pipeline 2 1 None None))).

Definition paired_run_1 : World * BatchProcessor * option FlushRecord :=
  batch_processor_iteration sample_proc_env paired_world (new_processor 0).

Definition paired_run_2 : World * BatchProcessor * option FlushRecord :=
  batch_processor_iteration sample_proc_env paired_run_1.1.1 paired_run_1.1.2.

(** A started pipeline with [batch_size = 1] and a storage sink that has
    accepted two points, and the state of its batch processor after an
    iteration during which the commit fails. *)
Definition failing_world : World :=
  start 0 (world_after [(sample_env, 0%nat); (sample_env, 1%nat)]
                       (new_world sample_heap
                                  (new_pipeline 1 1 None (Some (mkStorage true false []))))).

Definition failing_run_1 : World * BatchProcessor * option FlushRecord :=
  batch_processor_iteration (mkProcEnv 0 CommitFails) failing_world (new_processor 0).

(** A pipeline started at clock reading 100 that has accepted two points. *)
Definition started_world : World := world_after sample_calls (start 100 sample_world).

(** A valid point constructed without a timestamp, alone in the heap. *)
Definition unstamped_point : MarketDataPoint :=
  mkMarketDataPoint "AAPL" None 100 10 None None "test" "price" None.

Definition unstamped_world : World :=
  new_world {[ 0%nat := unstamped_point ]} (new_pipeline 100 1 None None).

(** ** Bounds kept by the pipeline *)

(** A deque created with [maxlen=m] that holds no more than [m] items. *)
Definition deque_bounded {A} (m : nat) (d : deque A) : Prop :=
  dq_maxlen d = m ∧ (length (dq_items d) ≤ m)%nat.

(** The sizes and signs that every state of a pipeline keeps. *)
Record bounded (w : World) : Prop := mkBounded {
  bounded_max_history : max_history (validator (pipeline w)) = 100%nat;
  bounded_history :
    map_Forall (λ _ h, deque_bounded 100 h) (price_history (validator (pipeline w)));
  bounded_latency : deque_bounded 1000 (latency_samples (metrics (pipeline w)));
  bounded_queue : Z.of_nat (length (queue_items (data_queue (pipeline w)))) ≤ 10000;
  bounded_rejected : 0 ≤ rejected_points (metrics (pipeline w));
  bounded_valid :
    Z.of_nat (length (queue_items (data_queue (pipeline w))))
    ≤ valid_points (metrics (pipeline w))
}.

(** Every point the pipeline holds, queued or parked at the [put], is an
    object of the heap with its timestamp set. *)
Definition held_points_stamped (w : World) : Prop :=
  ∀ r, r ∈ queue_items (data_queue (pipeline w)) ++ waiting w →
       ∃ dp, objects w !! r = Some dp ∧ timestamp dp ≠ None.

(** The points of the calls that returned [True], in call order. *)
Fixpoint accepted_refs (calls : list (IngestEnv * ref)) (os : list Outcome) : list ref :=
  match calls, os with
  | (_, r) :: calls', o :: os' =>
      (if returned_true o then [r] else []) ++ accepted_refs calls' os'
  | _, _ => []
  end.

(** A world without what streaming leaves behind: the streaming sink, the
    log and the latency samples, which include the time the publish took. *)
Definition without_streaming (w : World) : World :=
  let p := set_kafka (pipeline w) None in
  let m := metrics p in
  mkWorld (objects w)
          (set_metrics p (mkMetrics (total_processed m) (valid_points m) (rejected_points m)
                                    (start_time m) (last_batch_time m)
                                    (Deque (dq_maxlen (latency_samples m)) [])))
          (waiting w) (tasks_created w) [].

(** The same call with another behaviour of the Kafka client and another
    clock reading on exit. *)
Definition with_publish (env : IngestEnv) (kenv : KafkaEnv) (t_exit' : Q) : IngestEnv :=
  mkIngestEnv (t_enter env) (now_utc env) kenv t_exit'.

(** ** Sentiment scoring of the Finnhub news connector
      ([hmm-service/data_connectors.py]) *)

(** [word in text]: [word] occurs in [text] as a substring. *)
Fixpoint contains (word text : string) : bool :=
  String.prefix word text
  || match text with
     | EmptyString => false
     | String _ rest => contains word rest
     end.

(** [sum(1 for word in words if word in text)] *)
Definition count_present (words : list string) (text : string) : Z :=
  Z.of_nat (length (filter (λ word, contains word text = true) words)).

Definition positive_words : list string :=
  ["good"; "great"; "excellent"; "positive"; "growth"; "profit"; "gain"]%string.

Definition negative_words : list string :=
  ["bad"; "poor"; "negative"; "loss"; "decline"; "drop"; "fall"]%string.

(** [FinnhubConnector._simple_sentiment_analysis], on ASCII text. *)
Definition simple_sentiment_analysis (text : string) : Q :=
  let text_lower := lower text in
  let positive_count := count_present positive_words text_lower in
  let negative_count := count_present negative_words text_lower in
  if positive_count + negative_count =? 0 then 0%Q
  else (inject_Z (positive_count - negative_count)
        / inject_Z (positive_count + negative_count))%Q.

(** The data point [fetch_company_news] builds for one article, from the
    article's instant and the headline, summary and url it carries (an
    absent key is [None]). *)
Definition news_point (sym : string) (ts : datetime)
           (headline summary url : option string) : MarketDataPoint :=
  let score :=
    simple_sentiment_analysis
      (default EmptyString headline ++ " " ++ default EmptyString summary)%string in
  mkMarketDataPoint sym (Some ts) score 0 None None "finnhub" "news_sentiment"
    (Some [("headline"%string, opt_val VStr headline);
           ("summary"%string, opt_val VStr summary);
           ("url"%string, opt_val VStr url);
           ("sentiment_score"%string, VFloat score)]).

(** The valid sample point ingested 150 times: more than a history holds. *)
Definition busy_world : World := world_after (repeat (sample_env, 0%nat) 150) sample_world.

(** * Properties *)

(** ** Arithmetic of sums and means *)

Lemma Qltb_true (a b : Q) : Qltb a b = true ↔ (a < b)%Q.
Proof.
  unfold Qltb. rewrite negb_true_iff. split.
  - intros H. apply Qnot_le_lt. intros Hle. apply Qle_bool_iff in Hle. congruence.
  - intros H. destruct (Qle_bool b a) eqn:E; [|done].
    apply Qle_bool_iff in E. exfalso. eapply Qlt_not_le; eauto.
Qed.

Lemma foldl_Qplus_pos (l : list Q) (acc : Q) :
  (0 <= acc)%Q → Forall (λ q, (0 < q)%Q) l → l ≠ [] → (0 < foldl Qplus acc l)%Q.
Proof.
  revert acc. induction l as [|x l IH]; intros acc Hacc Hall Hne; [done|].
  inversion Hall as [|? ? Hx Hl]; subst. simpl.
  assert (Hpos : (0 < acc + x)%Q).
  { apply Qlt_le_trans with (0 + x)%Q; [by rewrite Qplus_0_l|].
    apply Qplus_le_l. done. }
  destruct l as [|y l']; [done|].
  apply IH; [by apply Qlt_le_weak | done | done].
Qed.

Lemma py_sum_pos (l : list Q) :
  Forall (λ q, (0 < q)%Q) l → l ≠ [] → (0 < py_sum l)%Q.
Proof. apply foldl_Qplus_pos. apply Qle_refl. Qed.

Lemma last_k_length {A} (k : nat) (l : list A) :
  (k ≤ length l)%nat → length (last_k k l) = k.
Proof. intros H. unfold last_k. rewrite length_drop. lia. Qed.

Lemma recent_mean_pos (h : deque Q) :
  Forall (λ q, (0 < q)%Q) (dq_items h) → (10 < length (dq_items h))%nat →
  (0 < recent_mean h)%Q.
Proof.
  intros Hall Hlen. unfold recent_mean.
  assert (Hk : length (last_k 10 (dq_items h)) = 10%nat) by (apply last_k_length; lia).
  rewrite Hk. apply Qlt_shift_div_l; [done|]. rewrite Qmult_0_l.
  apply py_sum_pos.
  - unfold last_k. by apply Forall_drop.
  - intros E. rewrite E in Hk. done.
Qed.

(** ** The validator *)

Lemma validate_rejects (v : DataQualityValidator) (dp : MarketDataPoint) :
  (price dp <= 0)%Q ∨ volume dp < 0 →
  ∃ lg, validate_price_data v dp = (false, v, lg).
Proof.
  intros Hbad. unfold validate_price_data.
  destruct (Qle_bool (price dp) 0) eqn:Hp; [eauto|].
  destruct (volume dp <? 0) eqn:Hv; [eauto|].
  exfalso. destruct Hbad as [Hle|Hlt].
  - apply Qle_bool_iff in Hle. congruence.
  - apply Z.ltb_lt in Hlt. congruence.
Qed.

Lemma history_of_positive (v : DataQualityValidator) (sym : string) :
  history_positive v → Forall (λ q, (0 < q)%Q) (dq_items (history_of v sym)).
Proof.
  intros Hinv. unfold history_of.
  destruct (price_history v !! sym) as [h|] eqn:E; [|by constructor].
  exact (Hinv sym h E).
Qed.

Lemma deque_append_positive (h : deque Q) (x : Q) :
  Forall (λ q, (0 < q)%Q) (dq_items h) → (0 < x)%Q →
  Forall (λ q, (0 < q)%Q) (dq_items (deque_append h x)).
Proof.
  intros Hall Hx. unfold deque_append. simpl. apply Forall_drop.
  apply Forall_app. split; [done|]. by constructor.
Qed.

Lemma validate_accepts (v : DataQualityValidator) (dp : MarketDataPoint) :
  history_positive v → (0 < price dp)%Q → 0 ≤ volume dp →
  ∃ lg,
    validate_price_data v dp =
      (true,
       mkValidator (<[symbol dp := deque_append (history_of v (symbol dp)) (price dp)]>
                      (price_history v)) (max_history v),
       lg)
    ∧ (anomalous (history_of v (symbol dp)) (price dp) →
       lg = [PriceAnomaly (symbol dp) (price dp) (recent_mean (history_of v (symbol dp)))])
    ∧ (¬ anomalous (history_of v (symbol dp)) (price dp) → lg = []).
Proof.
  intros Hinv Hp Hv. unfold validate_price_data.
  destruct (Qle_bool (price dp) 0) eqn:Hp'.
  { apply Qle_bool_iff in Hp'. exfalso. eapply Qlt_not_le; eauto. }
  destruct (volume dp <? 0) eqn:Hv'; [apply Z.ltb_lt in Hv'; lia|].
  set (h := history_of v (symbol dp)).
  pose proof (history_of_positive v (symbol dp) Hinv) as Hh. fold h in Hh.
  destruct (10 <? length (dq_items h))%nat eqn:Hlen.
  - apply Nat.ltb_lt in Hlen.
    pose proof (recent_mean_pos h Hh Hlen) as Hmean.
    destruct (Qeq_bool (recent_mean h) 0) eqn:Hz.
    { apply Qeq_bool_iff in Hz. rewrite Hz in Hmean. by apply Qlt_irrefl in Hmean. }
    destruct (Qltb (1 # 2) (Qabs (price dp - recent_mean h) / recent_mean h)) eqn:Hdev.
    + apply Qltb_true in Hdev. eexists. split; [done|]. split; [done|].
      intros Hn. exfalso. apply Hn. by split.
    + eexists. split; [done|]. split; [|done].
      intros [_ Hd]. apply Qltb_true in Hd. congruence.
  - apply Nat.ltb_ge in Hlen. eexists. split; [done|]. split; [|done].
    intros [Hl _]. lia.
Qed.

Lemma validate_preserves_positive (v v' : DataQualityValidator) (dp : MarketDataPoint)
      (ok : bool) (lg : list LogRecord) :
  history_positive v → validate_price_data v dp = (ok, v', lg) → history_positive v'.
Proof.
  intros Hinv Hval.
  assert (Hins : ∀ h, Forall (λ q, (0 < q)%Q) (dq_items h) →
            history_positive (mkValidator (<[symbol dp := h]> (price_history v))
                                          (max_history v))).
  { intros h Hh. unfold history_positive. simpl. by apply map_Forall_insert_2. }
  unfold validate_price_data in Hval.
  destruct (Qle_bool (price dp) 0) eqn:Hp; [by simplify_eq|].
  destruct (volume dp <? 0) eqn:Hv; [by simplify_eq|].
  pose proof (history_of_positive v (symbol dp) Hinv) as Hh.
  assert (Hpos : (0 < price dp)%Q).
  { apply Qnot_le_lt. intros Hle. apply Qle_bool_iff in Hle. congruence. }
  pose proof (deque_append_positive _ _ Hh Hpos) as Happ.
  repeat case_match; simplify_eq; by apply Hins.
Qed.

Lemma new_validator_positive : history_positive new_validator.
Proof. unfold history_positive, new_validator. simpl. apply map_Forall_empty. Qed.

(** ** The ingest entry point *)

Lemma ingest_finish_spec (env : IngestEnv) (r : ref) (w : World) (dp : MarketDataPoint) :
  objects w !! r = Some dp →
  ∃ w', ingest_finish env r w = Some (Returned true, w')
    ∧ objects w' = objects w
    ∧ waiting w' = waiting w
    ∧ tasks_created w' = tasks_created w
    ∧ running (pipeline w') = running (pipeline w)
    ∧ batch_size (pipeline w') = batch_size (pipeline w)
    ∧ batch_timeout (pipeline w') = batch_timeout (pipeline w)
    ∧ validator (pipeline w') = validator (pipeline w)
    ∧ postgres_storage (pipeline w') = postgres_storage (pipeline w)
    ∧ data_queue (pipeline w') = put_nowait (data_queue (pipeline w)) r
    ∧ metrics (pipeline w') =
        count_accepted ((t_exit env - t_enter env) * 1000)%Q (metrics (pipeline w))
    ∧ ∃ lgk, log w' = log w ++ lgk.
Proof.
  intros Hr. unfold ingest_finish. rewrite Hr. simpl.
  destruct (kafka_streamer (pipeline w)) as [k|].
  - destruct (publish_data _ _ _ _) as [[b k1] lg]. eexists. split; [done|]. simpl.
    repeat split; eauto.
  - eexists. split; [done|]. simpl. repeat split; eauto.
Qed.

Lemma ingest_finish_outcome (env : IngestEnv) (r : ref) (w w' : World) (o : Outcome) :
  ingest_finish env r w = Some (o, w') →
  o = Returned true
  ∧ objects w' = objects w
  ∧ batch_size (pipeline w') = batch_size (pipeline w)
  ∧ validator (pipeline w') = validator (pipeline w)
  ∧ maxsize (data_queue (pipeline w')) = maxsize (data_queue (pipeline w))
  ∧ metrics (pipeline w') =
      count_accepted ((t_exit env - t_enter env) * 1000)%Q (metrics (pipeline w)).
Proof.
  intros H. destruct (objects w !! r) as [dp|] eqn:Hr.
  - destruct (ingest_finish_spec env r w dp Hr) as (w1 & E & Ho & _ & _ & _ & Hb & _ & Hv & _ & Hq & Hm & _).
    rewrite E in H. simplify_eq. rewrite Hq. done.
  - unfold ingest_finish in H. rewrite Hr in H. done.
Qed.

Lemma pipeline_inv_fresh h bs bt k s : pipeline_inv (new_world h (new_pipeline bs bt k s)).
Proof. split; [apply new_validator_positive | done | done]. Qed.

Lemma pipeline_inv_step (w w' : World) :
  pipeline_step w w' → pipeline_inv w → pipeline_inv w'.
Proof.
  intros Hstep [Hh Hc Hm]. unfold counters_agree in *.
  destruct Hstep as [env r w o w' H|env r w o w' H|env w bp w' bp' fl H|t w|w|r dp w H].
  - unfold ingest_data_point in H.
    destruct (objects w !! r) as [dp|] eqn:Hr; [|done]. simpl in H.
    destruct (validate_price_data _ dp) as [[ok v'] lg] eqn:Hval.
    pose proof (validate_preserves_positive _ _ _ _ _ Hh Hval) as Hh'.
    destruct ok; simpl in H.
    + destruct (full _); simplify_eq.
      * by split.
      * apply ingest_finish_outcome in H as (_ & _ & _ & Hv & Hq & Hmet).
        split; unfold counters_agree; rewrite ?Hv, ?Hq, ?Hmet; simpl; [done|lia|done].
    + simplify_eq. by split.
  - unfold resume_put in H. case_bool_decide; [|done].
    destruct (full _); simplify_eq; [by split|].
    apply ingest_finish_outcome in H as (_ & _ & _ & Hv & Hq & Hmet).
    split; unfold counters_agree; rewrite ?Hv, ?Hq, ?Hmet; simpl; [done|lia|done].
  - unfold batch_processor_step in H. destruct (running _); [|done].
    unfold batch_processor_iteration in H.
    assert (Hq : ∀ q1 b1, dequeue_into (batch bp) (data_queue (pipeline w)) = (b1, q1) →
                          maxsize q1 = 10000).
    { intros q1 b1. unfold dequeue_into, queue_get.
      destruct (queue_items (data_queue (pipeline w))); intros; by simplify_eq. }
    destruct (dequeue_into _ _) as [b1 q1] eqn:E.
    specialize (Hq _ _ eq_refl).
    destruct (_ && _).
    + destruct (postgres_storage (pipeline w)) as [st|].
      * destruct (store_batch _ _ _ _) as [[ok s1] lg]. simplify_eq. by split.
      * simplify_eq. by split.
    + simplify_eq. by split.
  - unfold start. destruct (running (pipeline w)); by split.
  - unfold stop. destruct (running (pipeline w)); by split.
  - by split.
Qed.

Lemma reachable_inv (w : World) : reachable w → pipeline_inv w.
Proof.
  intros (h & bs & bt & k & s & Hrun).
  revert w Hrun. apply (rtc_ind_r (λ w, pipeline_inv w)).
  - apply pipeline_inv_fresh.
  - intros y z _ Hstep IH. by eapply pipeline_inv_step.
Qed.

Lemma reachable_step (w w' : World) : reachable w → pipeline_step w w' → reachable w'.
Proof.
  intros (h & bs & bt & k & s & Hrun) Hstep.
  exists h, bs, bt, k, s. eapply rtc_r; eauto.
Qed.

(** The effect of one call on the counters, by outcome. *)
Lemma ingest_counters (env : IngestEnv) (r : ref) (w w' : World) (o : Outcome) :
  ingest_data_point env r w = Some (o, w') →
  let m := metrics (pipeline w) in
  let m' := metrics (pipeline w') in
  match o with
  | Returned true =>
      total_processed m' = total_processed m + 1
      ∧ valid_points m' = valid_points m + 1
      ∧ rejected_points m' = rejected_points m
  | Returned false =>
      total_processed m' = total_processed m
      ∧ valid_points m' = valid_points m
      ∧ rejected_points m' = rejected_points m + 1
  | Suspended =>
      total_processed m' = total_processed m
      ∧ valid_points m' = valid_points m
      ∧ rejected_points m' = rejected_points m
  end.
Proof.
  intros H. unfold ingest_data_point in H.
  destruct (objects w !! r) as [dp|] eqn:Hr; [|done]. simpl in H.
  destruct (validate_price_data _ dp) as [[ok v'] lg] eqn:Hval.
  destruct ok; simpl in H.
  - destruct (full _); simplify_eq; [done|].
    apply ingest_finish_outcome in H as (-> & _ & _ & _ & _ & Hmet).
    simpl. rewrite Hmet. done.
  - by simplify_eq.
Qed.

(** C1: a data point with [price <= 0] or [volume < 0] makes
    [ingest_data_point] return [False] normally (no exception reaches the
    caller), raises [rejected_points] by exactly one and leaves
    [valid_points] unchanged; [total_processed], the queue and the heap are
    untouched as well. *)
Theorem rejected_point_is_counted (env : IngestEnv) (r : ref) (w : World)
        (dp : MarketDataPoint) :
  objects w !! r = Some dp →
  (price dp <= 0)%Q ∨ volume dp < 0 →
  ∃ w', ingest_data_point env r w = Some (Returned false, w')
    ∧ rejected_points (metrics (pipeline w')) = rejected_points (metrics (pipeline w)) + 1
    ∧ valid_points (metrics (pipeline w')) = valid_points (metrics (pipeline w))
    ∧ total_processed (metrics (pipeline w')) = total_processed (metrics (pipeline w))
    ∧ data_queue (pipeline w') = data_queue (pipeline w)
    ∧ objects w' = objects w.
Proof.
  intros Hr Hbad. unfold ingest_data_point. rewrite Hr. simpl.
  destruct (validate_rejects (validator (pipeline w)) dp Hbad) as [lg ->]. simpl.
  eexists. split; [done|]. by simpl.
Qed.

Lemma rejected_point_is_counted_witness :
  ∃ w', ingest_data_point sample_env 2%nat sample_world = Some (Returned false, w')
    ∧ rejected_points (metrics (pipeline w')) = 0 + 1
    ∧ valid_points (metrics (pipeline w')) = 0
    ∧ total_processed (metrics (pipeline w')) = 0
    ∧ data_queue (pipeline w') = data_queue (pipeline sample_world)
    ∧ objects w' = objects sample_world.
Proof.
  apply (rejected_point_is_counted sample_env 2%nat sample_world (sample_point (-1) 10)).
  - reflexivity.
  - left. vm_compute. discriminate.
Defined.

Lemma ingest_all_counters (calls : list (IngestEnv * ref)) (w w' : World)
      (os : list Outcome) :
  ingest_all calls w = Some (os, w') →
  total_processed (metrics (pipeline w')) =
    total_processed (metrics (pipeline w)) + count_outcomes returned_true os
  ∧ valid_points (metrics (pipeline w')) =
    valid_points (metrics (pipeline w)) + count_outcomes returned_true os
  ∧ rejected_points (metrics (pipeline w')) =
    rejected_points (metrics (pipeline w)) + count_outcomes returned_false os.
Proof.
  revert w os. induction calls as [|[env r] calls IH]; intros w os H; simpl in H.
  - simplify_eq. unfold count_outcomes. simpl. lia.
  - destruct (ingest_data_point env r w) as [[o w1]|] eqn:E1; [|done]. simpl in H.
    destruct (ingest_all calls w1) as [[os' w2]|] eqn:E2; [|done]. simpl in H.
    simplify_eq. apply IH in E2 as (Ht & Hv & Hrj).
    apply ingest_counters in E1. simpl in E1.
    rewrite Ht, Hv, Hrj. unfold count_outcomes.
    destruct o as [[|]|]; rewrite !filter_cons; simpl;
      repeat case_decide; try done; simpl; destruct E1 as (-> & -> & ->); lia.
Qed.

(** C9: after any sequence of [ingest_data_point] calls on a fresh pipeline
    [total_processed] equals [valid_points]; both equal the number of calls
    that returned [True], and the rejected calls are counted in
    [rejected_points] only. *)
Theorem total_processed_counts_accepted_only
        (calls : list (IngestEnv * ref)) (h : heap) (bs : Z) (bt : Q)
        (k : option KafkaStreamer) (s : option PostgreSQLStorage)
        (os : list Outcome) (w : World) :
  ingest_all calls (new_world h (new_pipeline bs bt k s)) = Some (os, w) →
  total_processed (metrics (pipeline w)) = valid_points (metrics (pipeline w))
  ∧ total_processed (metrics (pipeline w)) = count_outcomes returned_true os
  ∧ rejected_points (metrics (pipeline w)) = count_outcomes returned_false os.
Proof.
  intros H. apply ingest_all_counters in H as (Ht & Hv & Hrj).
  simpl in *. rewrite Ht, Hv, Hrj. lia.
Qed.

Lemma total_processed_counts_accepted_only_witness :
  let w := world_after sample_calls sample_world in
  total_processed (metrics (pipeline w)) = valid_points (metrics (pipeline w))
  ∧ total_processed (metrics (pipeline w)) =
      count_outcomes returned_true [Returned true; Returned false; Returned true]
  ∧ rejected_points (metrics (pipeline w)) =
      count_outcomes returned_false [Returned true; Returned false; Returned true].
Proof.
  apply (total_processed_counts_accepted_only sample_calls sample_heap 100 1 None None).
  vm_compute. reflexivity.
Defined.


(** The full-queue test on a pipeline built by [new_pipeline]. *)
Lemma full_iff (q : AsyncQueue) :
  maxsize q = 10000 →
  full q = false ↔ Z.of_nat (length (queue_items q)) < 10000.
Proof. intros Hm. unfold full. rewrite Hm. simpl. rewrite Z.leb_gt. done. Qed.

(** What a call does with a point the validator accepts while the queue
    has room. *)
Lemma ingest_accepts (env : IngestEnv) (r : ref) (w : World) (dp : MarketDataPoint) :
  reachable w →
  objects w !! r = Some dp →
  (0 < price dp)%Q → 0 ≤ volume dp →
  Z.of_nat (length (queue_items (data_queue (pipeline w)))) < 10000 →
  let h := history_of (validator (pipeline w)) (symbol dp) in
  ∃ w' lg lgk,
    ingest_data_point env r w = Some (Returned true, w')
    ∧ valid_points (metrics (pipeline w')) = valid_points (metrics (pipeline w)) + 1
    ∧ total_processed (metrics (pipeline w')) = total_processed (metrics (pipeline w)) + 1
    ∧ rejected_points (metrics (pipeline w')) = rejected_points (metrics (pipeline w))
    ∧ queue_items (data_queue (pipeline w')) = queue_items (data_queue (pipeline w)) ++ [r]
    ∧ batch_timeout (pipeline w') = batch_timeout (pipeline w)
    ∧ price_history (validator (pipeline w')) !! symbol dp = Some (deque_append h (price dp))
    ∧ log w' = log w ++ lg ++ lgk
    ∧ (anomalous h (price dp) → lg = [PriceAnomaly (symbol dp) (price dp) (recent_mean h)])
    ∧ (¬ anomalous h (price dp) → lg = []).
Proof.
  intros Hreach Hr Hp Hv Hroom h.
  destruct (reachable_inv w Hreach) as [Hh _ Hmax].
  destruct (validate_accepts _ dp Hh Hp Hv) as (lg & Hval & Hflag & Hnoflag).
  unfold ingest_data_point. rewrite Hr. simpl. rewrite Hval. simpl.
  apply full_iff in Hroom; [|done]. rewrite Hroom.
  set (w1 := mkWorld _ _ _ _ _).
  assert (Hr1 : ∃ dp1, objects w1 !! r = Some dp1).
  { unfold w1. simpl. destruct (timestamp dp); [eauto|].
    rewrite lookup_insert_eq. eauto. }
  destruct Hr1 as [dp1 Hr1].
  destruct (ingest_finish_spec env r w1 dp1 Hr1)
    as (w' & E & _ & _ & _ & _ & _ & Hbt & Hv' & _ & Hq & Hm & lgk & Hlog).
  exists w', lg, lgk. split; [done|]. rewrite Hm, Hq, Hv', Hlog, Hbt. unfold w1. simpl.
  rewrite lookup_insert_eq, <- (assoc_L (++)). done.
Qed.

(** ** The batch processor *)

Lemma dequeue_into_spec (b : list ref) (q : AsyncQueue) :
  dequeue_into b q =
    (b ++ take 1 (queue_items q), mkQueue (maxsize q) (drop 1 (queue_items q))).
Proof.
  unfold dequeue_into, queue_get. destruct q as [m [|r rest]]; simpl.
  - by rewrite app_nil_r.
  - by rewrite drop_0.
Qed.

Lemma iteration_spec (env : ProcEnv) (w : World) (bp : BatchProcessor) :
  let b1 := (dequeue_into (batch bp) (data_queue (pipeline w))).1 in
  ∃ w',
    batch_processor_iteration env w bp =
      (w',
       if flush_taken env w bp then mkProc [] (current_time env)
       else mkProc b1 (last_flush bp),
       if flush_taken env w bp
       then Some (mkFlush b1 ((λ s, (store_batch (db_fault env) (objects w) s b1).1.1)
                                <$> postgres_storage (pipeline w)))
       else None)
    ∧ objects w' = objects w
    ∧ queue_items (data_queue (pipeline w')) = drop 1 (queue_items (data_queue (pipeline w)))
    ∧ batch_size (pipeline w') = batch_size (pipeline w)
    ∧ batch_timeout (pipeline w') = batch_timeout (pipeline w)
    ∧ postgres_storage (pipeline w') =
        (if flush_taken env w bp
         then (λ s, (store_batch (db_fault env) (objects w) s b1).1.2)
                <$> postgres_storage (pipeline w)
         else postgres_storage (pipeline w)).
Proof.
  unfold batch_processor_iteration, flush_taken.
  rewrite dequeue_into_spec. simpl.
  destruct (should_flush _ _ _ && _).
  - destruct (postgres_storage (pipeline w)) as [s|]; simpl.
    + destruct (store_batch _ _ _ _) as [[ok s1] lg]. simpl. eexists. split; [done|]. done.
    + eexists. split; [done|]. done.
  - eexists. split; [done|]. done.
Qed.

Lemma batch_first_flush (b : list ref) (q : AsyncQueue) :
  (dequeue_into b q).1 = b ++ take 1 (queue_items q).
Proof. by rewrite dequeue_into_spec. Qed.

(** Consecutive iterations hand the points over in FIFO order and lose
    none: what was flushed, what is batched and what is still queued make
    up the batch and the queue the run started from. *)
Lemma run_processor_conserves (envs : list ProcEnv) (w : World) (bp : BatchProcessor) :
  ∀ w2 bp2 fls, run_processor envs w bp = (w2, bp2, fls) →
  concat (flushed <$> fls) ++ batch bp2 ++ queue_items (data_queue (pipeline w2))
  = batch bp ++ queue_items (data_queue (pipeline w)).
Proof.
  revert w bp. induction envs as [|env envs IH]; intros w bp w2 bp2 fls H; simpl in H.
  - by simplify_eq.
  - destruct (iteration_spec env w bp) as (w1 & E & _ & Hq & _).
    rewrite E in H.
    destruct (run_processor envs w1 _) as [[w3 bp3] fls3] eqn:E3.
    apply IH in E3. simplify_eq. rewrite Hq in E3. rewrite batch_first_flush in *.
    rewrite fmap_app, concat_app.
    destruct (flush_taken env w bp); simpl (option_list _); cbn [batch] in *.
    + rewrite fmap_cons, fmap_nil. cbn [concat flushed]. rewrite app_nil_r.
      rewrite app_nil_l in E3. rewrite <- !(assoc_L (++)). rewrite E3.
      by rewrite take_drop.
    + rewrite fmap_nil. cbn [concat]. rewrite app_nil_l, E3.
      rewrite <- (assoc_L (++)). by rewrite take_drop.
Qed.

Lemma run_processor_drains (envs : list ProcEnv) (w : World) (bp : BatchProcessor) :
  ∀ w2 bp2 fls, run_processor envs w bp = (w2, bp2, fls) →
  queue_items (data_queue (pipeline w2))
    = drop (length envs) (queue_items (data_queue (pipeline w)))
  ∧ batch_size (pipeline w2) = batch_size (pipeline w)
  ∧ batch_timeout (pipeline w2) = batch_timeout (pipeline w).
Proof.
  revert w bp. induction envs as [|env envs IH]; intros w bp w2 bp2 fls H; simpl in H.
  - by simplify_eq.
  - destruct (iteration_spec env w bp) as (w1 & E & _ & Hq & Hb & Ht & _).
    rewrite E in H.
    destruct (run_processor envs w1 _) as [[w3 bp3] fls3] eqn:E3.
    apply IH in E3 as (E3 & Hb3 & Ht3). simplify_eq. rewrite E3, Hq, Hb3, Ht3.
    rewrite drop_drop. done.
Qed.

(** A point at the head of the queue is flushed by the iteration that
    dequeues it once the timeout has elapsed. *)
Lemma iteration_flushes_on_timeout (env : ProcEnv) (w : World) (bp : BatchProcessor)
      (r : ref) (rest : list ref) :
  queue_items (data_queue (pipeline w)) = r :: rest →
  (batch_timeout (pipeline w) <= current_time env - last_flush bp)%Q →
  ∃ w' f, batch_processor_iteration env w bp = (w', mkProc [] (current_time env), Some f)
    ∧ flushed f = batch bp ++ [r].
Proof.
  intros Hq Hto.
  destruct (iteration_spec env w bp) as (w1 & E & _).
  rewrite batch_first_flush in E. rewrite Hq in E. simpl in E.
  assert (Hgo : flush_taken env w bp = true).
  { unfold flush_taken. rewrite batch_first_flush, Hq. simpl.
    unfold should_flush. apply Qle_bool_iff in Hto. rewrite Hto.
    assert (Hne : batch bp ++ [r] ≠ []) by (by destruct (batch bp)).
    rewrite bool_decide_eq_false_2 by done. simpl. by rewrite orb_true_r. }
  rewrite Hgo in E. eexists _, _. split; [exact E|]. done.
Qed.

(** ** Reachability of the sample states *)

Lemma reachable_fresh h bs bt k s : reachable (new_world h (new_pipeline bs bt k s)).
Proof. exists h, bs, bt, k, s. apply rtc_refl. Qed.

Lemma ingest_all_reachable (calls : list (IngestEnv * ref)) (w w' : World)
      (os : list Outcome) :
  reachable w → ingest_all calls w = Some (os, w') → reachable w'.
Proof.
  revert w os. induction calls as [|[env r] calls IH]; intros w os Hw H; simpl in H.
  - by simplify_eq.
  - destruct (ingest_data_point env r w) as [[o w1]|] eqn:E1; [|done]. simpl in H.
    destruct (ingest_all calls w1) as [[os' w2]|] eqn:E2; [|done]. simpl in H.
    simplify_eq. eapply IH; [|done]. eapply reachable_step; [done|].
    by eapply step_ingest.
Qed.

Lemma world_after_reachable (calls : list (IngestEnv * ref)) (w : World) :
  reachable w → reachable (world_after calls w).
Proof.
  intros Hw. unfold world_after.
  destruct (ingest_all calls w) as [[os w']|] eqn:E; simpl; [|done].
  by eapply ingest_all_reachable.
Qed.

(** C2 (amended): a data point with [price > 0] and [volume >= 0], ingested
    while the queue holds fewer than 10000 points, makes [ingest_data_point]
    return [True], raises [valid_points] by exactly one and puts the point
    at the tail of the queue.  From there the batch processor hands the
    points over in FIFO order without losing any, and the iteration that
    dequeues the point flushes it once the batch timeout has elapsed. *)
Theorem valid_point_is_accepted_and_queued (env : IngestEnv) (r : ref) (w : World)
        (dp : MarketDataPoint) :
  reachable w →
  objects w !! r = Some dp →
  (0 < price dp)%Q → 0 ≤ volume dp →
  Z.of_nat (length (queue_items (data_queue (pipeline w)))) < 10000 →
  ∃ w', ingest_data_point env r w = Some (Returned true, w')
    ∧ valid_points (metrics (pipeline w')) = valid_points (metrics (pipeline w)) + 1
    ∧ queue_items (data_queue (pipeline w')) = queue_items (data_queue (pipeline w)) ++ [r]
    ∧ (∀ envs bp w2 bp2 fls,
         run_processor envs w' bp = (w2, bp2, fls) →
         concat (flushed <$> fls) ++ batch bp2 ++ queue_items (data_queue (pipeline w2))
         = batch bp ++ queue_items (data_queue (pipeline w)) ++ [r])
    ∧ (∀ envs env bp w2 bp2 fls,
         length envs = length (queue_items (data_queue (pipeline w))) →
         run_processor envs w' bp = (w2, bp2, fls) →
         (batch_timeout (pipeline w) <= current_time env - last_flush bp2)%Q →
         ∃ w3 f,
           batch_processor_iteration env w2 bp2 = (w3, mkProc [] (current_time env), Some f)
           ∧ r ∈ flushed f).
Proof.
  intros Hreach Hr Hp Hv Hroom.
  destruct (ingest_accepts env r w dp Hreach Hr Hp Hv Hroom)
    as (w' & lg & lgk & E & Hval & _ & _ & Hq & Hbt & _).
  exists w'. split; [done|]. split; [done|]. split; [done|]. split.
  - intros envs bp w2 bp2 fls Hrun.
    apply run_processor_conserves in Hrun. by rewrite Hrun, Hq.
  - intros envs e bp w2 bp2 fls Hlen Hrun Hto.
    apply run_processor_drains in Hrun as (Hq2 & _ & Hbt2).
    rewrite Hq, Hlen, drop_app_length in Hq2.
    rewrite <- Hbt, <- Hbt2 in Hto.
    destruct (iteration_flushes_on_timeout e w2 bp2 r [] Hq2 Hto) as (w3 & f & E3 & Hf).
    exists w3, f. split; [done|]. rewrite Hf. apply elem_of_app. right. apply list_elem_of_here.
Qed.

Lemma valid_point_is_accepted_and_queued_witness :
  ∃ w', ingest_data_point sample_env 0%nat sample_world = Some (Returned true, w')
    ∧ valid_points (metrics (pipeline w')) = 0 + 1
    ∧ queue_items (data_queue (pipeline w')) = [] ++ [0%nat]
    ∧ (∀ envs bp w2 bp2 fls,
         run_processor envs w' bp = (w2, bp2, fls) →
         concat (flushed <$> fls) ++ batch bp2 ++ queue_items (data_queue (pipeline w2))
         = batch bp ++ [] ++ [0%nat])
    ∧ (∀ envs env bp w2 bp2 fls,
         length envs = 0%nat →
         run_processor envs w' bp = (w2, bp2, fls) →
         (1 <= current_time env - last_flush bp2)%Q →
         ∃ w3 f,
           batch_processor_iteration env w2 bp2 = (w3, mkProc [] (current_time env), Some f)
           ∧ 0%nat ∈ flushed f).
Proof.
  apply (valid_point_is_accepted_and_queued sample_env 0%nat sample_world
                                            (sample_point 100 10)).
  - apply reachable_fresh.
  - reflexivity.
  - reflexivity.
  - simpl. lia.
  - simpl. lia.
Defined.



Lemma ingest_finish_effect (env : IngestEnv) (r : ref) (w w' : World) (o : Outcome) :
  ingest_finish env r w = Some (o, w') →
  o = Returned true
  ∧ objects w' = objects w
  ∧ waiting w' = waiting w
  ∧ validator (pipeline w') = validator (pipeline w)
  ∧ data_queue (pipeline w') = put_nowait (data_queue (pipeline w)) r
  ∧ metrics (pipeline w') =
      count_accepted ((t_exit env - t_enter env) * 1000)%Q (metrics (pipeline w)).
Proof.
  intros H. destruct (objects w !! r) as [dp|] eqn:Hr.
  - destruct (ingest_finish_spec env r w dp Hr)
      as (w1 & E & Ho & Hw & _ & _ & _ & _ & Hv & _ & Hq & Hm & _).
    rewrite E in H. by simplify_eq.
  - unfold ingest_finish in H. rewrite Hr in H. done.
Qed.

Lemma ingest_queue_effect (env : IngestEnv) (r : ref) (w w' : World) (o : Outcome) :
  ingest_data_point env r w = Some (o, w') →
  queue_items (data_queue (pipeline w'))
  = queue_items (data_queue (pipeline w)) ++ (if returned_true o then [r] else []).
Proof.
  intros H. unfold ingest_data_point in H.
  destruct (objects w !! r) as [dp|] eqn:Hr; [|done]. simpl in H.
  destruct (validate_price_data _ dp) as [[ok v'] lg] eqn:Hval.
  destruct ok; simpl in H.
  - destruct (full _); simplify_eq; [by rewrite app_nil_r|].
    apply ingest_finish_effect in H as (-> & _ & _ & _ & Hq & _). by rewrite Hq.
  - simplify_eq. by rewrite app_nil_r.
Qed.

(** ** Flushes *)

Lemma ingest_batch_size (env : IngestEnv) (r : ref) (w w' : World) (o : Outcome) :
  ingest_data_point env r w = Some (o, w') →
  batch_size (pipeline w') = batch_size (pipeline w).
Proof.
  intros H. unfold ingest_data_point in H.
  destruct (objects w !! r) as [dp|] eqn:Hr; [|done]. simpl in H.
  destruct (validate_price_data _ dp) as [[ok v'] lg] eqn:Hval.
  destruct ok; simpl in H; [|by simplify_eq].
  destruct (full _); simplify_eq; [done|].
  by apply ingest_finish_outcome in H as (_ & _ & -> & _).
Qed.

Lemma step_batch_size (w w' : World) :
  pipeline_step w w' → batch_size (pipeline w') = batch_size (pipeline w).
Proof.
  intros Hstep.
  destruct Hstep as [env r w o w' H|env r w o w' H|env w bp w' bp' fl H|t w|w|r dp w H].
  - by eapply ingest_batch_size.
  - unfold resume_put in H. case_bool_decide; [|done].
    destruct (full _); simplify_eq; [done|].
    by apply ingest_finish_outcome in H as (_ & _ & -> & _).
  - unfold batch_processor_step in H. destruct (running _); [|done].
    destruct (iteration_spec env w bp) as (w1 & E & _ & _ & Hb & _).
    rewrite E in H. by simplify_eq.
  - unfold start. by destruct (running (pipeline w)).
  - unfold stop. by destruct (running (pipeline w)).
  - done.
Qed.

Lemma flush_taken_iff (env : ProcEnv) (w : World) (bp : BatchProcessor) :
  1 ≤ batch_size (pipeline w) →
  let b1 := (dequeue_into (batch bp) (data_queue (pipeline w))).1 in
  flush_taken env w bp = true ↔
    batch_size (pipeline w) ≤ Z.of_nat (length b1)
    ∨ (b1 ≠ [] ∧ (batch_timeout (pipeline w) <= current_time env - last_flush bp)%Q).
Proof.
  intros Hbs b1. unfold flush_taken, should_flush. fold b1.
  rewrite andb_true_iff, orb_true_iff, andb_true_iff, !negb_true_iff,
    !bool_decide_eq_false, Z.leb_le, Qle_bool_iff.
  split.
  - intros [[H|H] _]; auto.
  - intros [H|[H1 H2]]; [|by auto].
    split; [by left|]. intros E. rewrite E in H. simpl in H. lia.
Qed.

(** While a processor runs, its batch stays below [batch_size] between
    iterations, no flush was larger than [batch_size], and what it flushed
    followed by what it holds is what it dequeued. *)
Lemma processor_run_inv (w : World) (bp : BatchProcessor) (taken : list ref)
      (fls : list FlushRecord) :
  processor_run w bp taken fls →
  concat (flushed <$> fls) ++ batch bp = taken
  ∧ (1 ≤ batch_size (pipeline w) →
     Z.of_nat (length (batch bp)) < batch_size (pipeline w)
     ∧ Forall (λ f, Z.of_nat (length (flushed f)) ≤ batch_size (pipeline w)) fls).
Proof.
  induction 1 as [w t|env w bp taken fls w' bp' fl Hrun [IHc IHb] Hstep
                  |w bp taken fls w' Hrun [IHc IHb] Hstep].
  - split; [done|]. intros Hbs. simpl. split; [lia|constructor].
  - unfold batch_processor_step in Hstep. destruct (running _); [|done].
    destruct (iteration_spec env w bp) as (w1 & E & _ & _ & Hb & _).
    rewrite E in Hstep. simplify_eq. rewrite batch_first_flush in *.
    rewrite fmap_app, concat_app, Hb. split.
    + destruct (flush_taken env w bp); simpl (option_list _).
      * rewrite fmap_cons, fmap_nil. cbn [concat flushed batch].
        by rewrite !app_nil_r, <- !(assoc_L (++)).
      * rewrite fmap_nil. cbn [concat batch].
        by rewrite !app_nil_r, <- !(assoc_L (++)).
    + intros Hbs. destruct (IHb Hbs) as [Hlen Hfls].
      assert (Hb1 : Z.of_nat (length (batch bp ++ take 1 (queue_items (data_queue (pipeline w)))))
                    ≤ batch_size (pipeline w)).
      { rewrite length_app, length_take. lia. }
      destruct (flush_taken env w bp) eqn:Hgo; simpl (option_list _); cbn [batch].
      * split; [simpl; lia|]. apply Forall_app. split; [done|].
        constructor; [done|constructor].
      * split; [|by rewrite app_nil_r].
        destruct (Z_lt_le_dec
                    (Z.of_nat (length (batch bp ++ take 1 (queue_items (data_queue (pipeline w))))))
                    (batch_size (pipeline w))) as [Hlt|Hge]; [done|].
        exfalso. assert (Hgo' : flush_taken env w bp = true).
        { apply flush_taken_iff; [done|]. left. by rewrite batch_first_flush. }
        congruence.
  - rewrite (step_batch_size _ _ Hstep). by split.
Qed.

(** C4 (amended): with a configured [batch_size] of at least 1, an
    iteration of the batch-processor loop flushes exactly when the batch,
    after the dequeue attempt, has reached [batch_size] or is non-empty with
    at least [batch_timeout] elapsed since the last flush; a flushed batch
    never holds more than [batch_size] points, over the whole life of the
    processor; and on a flush the batch is cleared and the timer reset
    whatever the storage write did. *)
Theorem flush_rule (env : ProcEnv) (w : World) (bp : BatchProcessor)
        (taken : list ref) (fls : list FlushRecord) :
  processor_run w bp taken fls →
  1 ≤ batch_size (pipeline w) →
  let b1 := (dequeue_into (batch bp) (data_queue (pipeline w))).1 in
  let '(w', bp', fl) := batch_processor_iteration env w bp in
  (is_Some fl ↔
     batch_size (pipeline w) ≤ Z.of_nat (length b1)
     ∨ (b1 ≠ [] ∧ (batch_timeout (pipeline w) <= current_time env - last_flush bp)%Q))
  ∧ (∀ f, fl = Some f →
       flushed f = b1
       ∧ Z.of_nat (length (flushed f)) ≤ batch_size (pipeline w)
       ∧ bp' = mkProc [] (current_time env))
  ∧ (fl = None → bp' = mkProc b1 (last_flush bp))
  ∧ (∀ fault,
       (batch_processor_iteration (mkProcEnv (current_time env) fault) w bp).1.2 = bp')
  ∧ Forall (λ f, Z.of_nat (length (flushed f)) ≤ batch_size (pipeline w)) fls.
Proof.
  intros Hrun Hbs b1.
  destruct (processor_run_inv _ _ _ _ Hrun) as [_ Hinv].
  destruct (Hinv Hbs) as [Hlen Hfls].
  pose proof (flush_taken_iff env w bp Hbs) as Hiff. simpl in Hiff. fold b1 in Hiff.
  destruct (iteration_spec env w bp) as (w1 & E & _). fold b1 in E. rewrite E.
  assert (Hb1 : Z.of_nat (length b1) ≤ batch_size (pipeline w)).
  { unfold b1. rewrite batch_first_flush, length_app, length_take. lia. }
  split; [|split; [|split; [|split]]].
  - rewrite <- Hiff. destruct (flush_taken env w bp); split; intros H; try done;
      try (by eexists); by destruct H.
  - intros f Hf. destruct (flush_taken env w bp); simplify_eq. done.
  - intros Hf. by destruct (flush_taken env w bp).
  - intros fault.
    destruct (iteration_spec (mkProcEnv (current_time env) fault) w bp) as (w2 & E2 & _).
    rewrite E2. done.
  - done.
Qed.

Lemma flush_rule_witness :
  let w := paired_run_2.1.1 in
  let bp := paired_run_2.1.2 in
  let env := mkProcEnv 5 NoFault in
  let b1 := (dequeue_into (batch bp) (data_queue (pipeline w))).1 in
  let '(w', bp', fl) := batch_processor_iteration env w bp in
  (is_Some fl ↔
     batch_size (pipeline w) ≤ Z.of_nat (length b1)
     ∨ (b1 ≠ [] ∧ (batch_timeout (pipeline w) <= current_time env - last_flush bp)%Q))
  ∧ (∀ f, fl = Some f →
       flushed f = b1
       ∧ Z.of_nat (length (flushed f)) ≤ batch_size (pipeline w)
       ∧ bp' = mkProc [] (current_time env))
  ∧ (fl = None → bp' = mkProc b1 (last_flush bp))
  ∧ (∀ fault,
       (batch_processor_iteration (mkProcEnv (current_time env) fault) w bp).1.2 = bp')
  ∧ Forall (λ f, Z.of_nat (length (flushed f)) ≤ batch_size (pipeline w))
           [mkFlush [0%nat; 1%nat] None].
Proof.
  assert (H1 : batch_processor_step sample_proc_env paired_world (new_processor 0)
               = Some (paired_run_1.1.1, paired_run_1.1.2, paired_run_1.2))
    by (vm_compute; reflexivity).
  assert (H2 : batch_processor_step sample_proc_env paired_run_1.1.1 paired_run_1.1.2
               = Some (paired_run_2.1.1, paired_run_2.1.2, paired_run_2.2))
    by (vm_compute; reflexivity).
  pose proof (run_iteration _ _ _ _ _ _ _ _
                (run_iteration _ _ _ _ _ _ _ _ (run_begin paired_world 0) H1) H2) as Hrun.
  assert (Hbs : 1 ≤ batch_size (pipeline paired_run_2.1.1)) by (vm_compute; discriminate).
  exact (flush_rule (mkProcEnv 5 NoFault) _ _ _ _ Hrun Hbs).
Defined.

(** What that witness is about: the second iteration flushed the first two
    points because the batch had reached [batch_size], and the third
    iteration, five seconds later, dequeues the last point and flushes it
    because the timeout has elapsed. *)
Example paired_run_flushes :
  paired_run_1.2 = None
  ∧ batch paired_run_1.1.2 = [0%nat]
  ∧ paired_run_2.2 = Some (mkFlush [0%nat; 1%nat] None)
  ∧ batch paired_run_2.1.2 = []
  ∧ (batch_processor_iteration (mkProcEnv 5 NoFault) paired_run_2.1.1 paired_run_2.1.2).2
    = Some (mkFlush [0%nat] None).
Proof. repeat split; vm_compute; reflexivity. Qed.

(** C4, as stated, fails for [batch_size = 0]: with an empty batch the
    length has reached [batch_size] and nothing is flushed, and once a point
    has been dequeued the flushed batch holds one point, more than
    [batch_size]. *)
Lemma zero_batch_size_breaks_flush_rule :
  batch_size (pipeline zero_batch_world) = 0
  ∧ (dequeue_into (batch (new_processor 0)) (data_queue (pipeline zero_batch_world))).1 = []
  ∧ (batch_processor_iteration sample_proc_env zero_batch_world (new_processor 0)).2 = None
  ∧ (batch_processor_iteration sample_proc_env zero_batch_world_one (new_processor 0)).2
    = Some (mkFlush [0%nat] None)
  ∧ batch_size (pipeline zero_batch_world_one) < Z.of_nat (length [0%nat]).
Proof. repeat split; vm_compute; reflexivity. Qed.

(** ** Storage *)

(** [store_batch] commits the whole batch or nothing. *)
Lemma store_batch_all_or_nothing (fault : DbFault) (h : heap) (s : PostgreSQLStorage)
      (data_points : list ref) :
  let res := store_batch fault h s data_points in
  (res.1.1 = false ∧ market_data res.1.2 = market_data s)
  ∨ (res.1.1 = true ∧ fault = NoFault ∧ pool_closed s = false
     ∧ ∃ rows, rows_of h data_points = Some rows
               ∧ market_data res.1.2 = market_data s ++ rows).
Proof.
  unfold store_batch.
  destruct (negb (pool s) || bool_decide (data_points = [])); [by left|].
  destruct (pool_closed s) eqn:Hc; simpl; [by left|].
  destruct fault; simpl; try (by left).
  - destruct (rows_of h data_points) as [rows|] eqn:Hrows; simpl; [|by left].
    right. repeat split; try done. by exists rows.
  - destruct (rows_of h data_points); by left.
  - destruct (rows_of h data_points); by left.
Qed.









Example failed_flushes_are_not_repeated :
  failing_run_1.2 = Some (mkFlush [0%nat] (Some false))
  ∧ batch failing_run_1.1.2 = []
  ∧ queue_items (data_queue (pipeline failing_run_1.1.1)) = [1%nat]
  ∧ (batch_processor_iteration (mkProcEnv 1 (ExecuteFails 0))
                               failing_run_1.1.1 failing_run_1.1.2).2
    = Some (mkFlush [1%nat] (Some false))
  ∧ market_data <$> postgres_storage
      (pipeline (batch_processor_iteration (mkProcEnv 1 (ExecuteFails 0))
                                           failing_run_1.1.1 failing_run_1.1.2).1.1)
    = Some [].
Proof. repeat split; vm_compute; reflexivity. Qed.

(** ** Metrics *)

Lemma Qmax_py_ge_one (a : Q) : (1 <= a)%Q → Qmax_py a 1 = a.
Proof.
  intros H. unfold Qmax_py. destruct (Qltb a 1) eqn:E; [|done].
  apply Qltb_true in E. exfalso. eapply Qlt_not_le; eauto.
Qed.

Lemma Qmax_py_lt_one (a : Q) : (a < 1)%Q → Qmax_py a 1 = 1%Q.
Proof.
  intros H. unfold Qmax_py. apply Qltb_true in H. by rewrite H.
Qed.

(** C6 (amended): once the pipeline has started, [throughput_per_sec] is
    [total_processed / max(elapsed, 1)] with [elapsed] the seconds since
    [start_time]: the ratio [total_processed / elapsed] when at least one
    second has elapsed, and [total_processed] itself before that. *)
Theorem throughput_is_clamped_ratio (now t0 : Q) (p : DataIngestionPipeline) :
  start_time (metrics p) = Some t0 →
  ¬ (t0 == 0)%Q →
  throughput_per_sec (get_metrics now p)
    = (inject_Z (total_processed (metrics p)) / Qmax_py (now - t0) 1)%Q
  ∧ ((1 <= now - t0)%Q →
     throughput_per_sec (get_metrics now p)
       = (inject_Z (total_processed (metrics p)) / (now - t0))%Q)
  ∧ ((now - t0 < 1)%Q →
     (throughput_per_sec (get_metrics now p) == inject_Z (total_processed (metrics p)))%Q).
Proof.
  intros Hst Hnz.
  assert (E : throughput_per_sec (get_metrics now p)
              = (inject_Z (total_processed (metrics p)) / Qmax_py (now - t0) 1)%Q).
  { unfold get_metrics. rewrite Hst. simpl.
    destruct (Qeq_bool t0 0) eqn:Hz.
    - apply Qeq_bool_iff in Hz. done.
    - simpl. by destruct (dq_items (latency_samples (metrics p))). }
  split; [done|]. split.
  - intros H. by rewrite E, Qmax_py_ge_one.
  - intros H. rewrite E, Qmax_py_lt_one by done. by field.
Qed.

Lemma throughput_is_clamped_ratio_witness :
  let p := pipeline started_world in
  throughput_per_sec (get_metrics 102 p)
    = (inject_Z (total_processed (metrics p)) / Qmax_py (102 - 100) 1)%Q
  ∧ ((1 <= 102 - 100)%Q →
     throughput_per_sec (get_metrics 102 p)
       = (inject_Z (total_processed (metrics p)) / (102 - 100))%Q)
  ∧ ((102 - 100 < 1)%Q →
     (throughput_per_sec (get_metrics 102 p) == inject_Z (total_processed (metrics p)))%Q).
Proof.
  apply (throughput_is_clamped_ratio 102 100 (pipeline started_world)).
  - reflexivity.
  - vm_compute. discriminate.
Defined.

(** C6, as stated, fails within the first second: half a second after the
    start with two points processed the snapshot reports a throughput of 2,
    where the ratio [total_processed / elapsed] is 4. *)
Lemma throughput_differs_in_first_second :
  let p := pipeline started_world in
  start_time (metrics p) = Some 100%Q
  ∧ total_processed (metrics p) = 2
  ∧ ((201 # 2) - 100 == 1 # 2)%Q
  ∧ (throughput_per_sec (get_metrics (201 # 2) p) == 2)%Q
  ∧ (inject_Z (total_processed (metrics p)) / ((201 # 2) - 100) == 4)%Q
  ∧ ¬ (throughput_per_sec (get_metrics (201 # 2) p)
       == inject_Z (total_processed (metrics p)) / ((201 # 2) - 100))%Q.
Proof.
  repeat split; try (vm_compute; reflexivity).
  vm_compute. discriminate.
Qed.

(** ** Lifecycle *)

(** C8: a second [start()] in a row leaves the pipeline object, the heap,
    the parked calls and the number of batch-processor tasks as the first
    one left them (it only logs the "already running" warning), and
    [stop()] on a pipeline that is not running changes nothing at all. *)
Theorem start_twice_and_idle_stop (t1 t2 : Q) (w w0 : World) :
  running (pipeline w0) = false →
  (pipeline (start t2 (start t1 w)) = pipeline (start t1 w)
   ∧ objects (start t2 (start t1 w)) = objects (start t1 w)
   ∧ waiting (start t2 (start t1 w)) = waiting (start t1 w)
   ∧ tasks_created (start t2 (start t1 w)) = tasks_created (start t1 w)
   ∧ log (start t2 (start t1 w)) = log (start t1 w) ++ [AlreadyRunning])
  ∧ stop w0 = w0.
Proof.
  intros Hidle. split.
  - assert (Hrun : running (pipeline (start t1 w)) = true).
    { unfold start. by destruct (running (pipeline w)) eqn:E. }
    set (w1 := start t1 w) in *. unfold start. by rewrite Hrun.
  - unfold stop. by rewrite Hidle.
Qed.

Lemma start_twice_and_idle_stop_witness :
  (pipeline (start 7 (start 5 sample_world)) = pipeline (start 5 sample_world)
   ∧ objects (start 7 (start 5 sample_world)) = objects (start 5 sample_world)
   ∧ waiting (start 7 (start 5 sample_world)) = waiting (start 5 sample_world)
   ∧ tasks_created (start 7 (start 5 sample_world)) = tasks_created (start 5 sample_world)
   ∧ log (start 7 (start 5 sample_world)) = log (start 5 sample_world) ++ [AlreadyRunning])
  ∧ stop sample_world = sample_world.
Proof.
  apply (start_twice_and_idle_stop 5 7 sample_world sample_world).
  reflexivity.
Defined.

(** ** Data points on the heap *)

Lemma ingest_objects (env : IngestEnv) (r : ref) (w w' : World) (dp : MarketDataPoint)
      (o : Outcome) :
  objects w !! r = Some dp →
  ingest_data_point env r w = Some (o, w') →
  objects w' = objects w
  ∨ (o ≠ Returned false ∧ timestamp dp = None
     ∧ objects w' = <[r := set_timestamp dp (now_utc env)]> (objects w)).
Proof.
  intros Hr H. unfold ingest_data_point in H. rewrite Hr in H. simpl in H.
  destruct (validate_price_data _ dp) as [[ok v'] lg] eqn:Hval.
  destruct ok; simpl in H; [|left; by simplify_eq].
  destruct (full _).
  - simplify_eq. simpl. destruct (timestamp dp) eqn:Hts; [by left|]. by right.
  - apply ingest_finish_outcome in H as (-> & Ho & _). rewrite Ho. simpl.
    destruct (timestamp dp) eqn:Hts; [by left|]. by right.
Qed.

(** C7 (amended): the pipeline changes a data point in one case only:
    [ingest_data_point] sets, in place, the [timestamp] of a point it
    accepts when that timestamp is unset.  Every other object of the heap
    and every other field of the point are as before the call, a point
    whose timestamp is set or that is rejected is left identical, and the
    wake-up of a parked call, an iteration of the batch processor (batch
    storage included), [start] and [stop] leave the whole heap as it is. *)
Theorem only_a_missing_timestamp_is_set
        (env : IngestEnv) (r : ref) (w w' : World) (dp : MarketDataPoint) (o : Outcome)
        (penv : ProcEnv) (bp : BatchProcessor) (t : Q) :
  objects w !! r = Some dp →
  ingest_data_point env r w = Some (o, w') →
  (∀ r', r' ≠ r → objects w' !! r' = objects w !! r')
  ∧ (∃ dp', objects w' !! r = Some dp'
       ∧ symbol dp' = symbol dp ∧ price dp' = price dp ∧ volume dp' = volume dp
       ∧ bid dp' = bid dp ∧ ask dp' = ask dp ∧ source dp' = source dp
       ∧ data_type dp' = data_type dp ∧ metadata dp' = metadata dp
       ∧ (timestamp dp' = timestamp dp
          ∨ (timestamp dp = None ∧ timestamp dp' = Some (now_utc env))))
  ∧ (timestamp dp ≠ None → objects w' = objects w)
  ∧ (o = Returned false → objects w' = objects w)
  ∧ (∀ o2 w2, resume_put env r w = Some (o2, w2) → objects w2 = objects w)
  ∧ objects (batch_processor_iteration penv w bp).1.1 = objects w
  ∧ objects (start t w) = objects w
  ∧ objects (stop w) = objects w.
Proof.
  intros Hr H.
  destruct (ingest_objects env r w w' dp o Hr H) as [E|(Ho & Hts & E)]; rewrite E.
  - split; [done|]. split; [exists dp; repeat split; auto|].
    split; [done|]. split; [done|]. split; [|split; [|split]].
    + intros o2 w2 H2. unfold resume_put in H2. case_bool_decide; [|done].
      destruct (full _); [by simplify_eq|].
      by apply ingest_finish_outcome in H2 as (_ & -> & _).
    + destruct (iteration_spec penv w bp) as (w1 & E1 & Ho1 & _). by rewrite E1.
    + unfold start. by destruct (running (pipeline w)).
    + unfold stop. by destruct (running (pipeline w)).
  - split; [intros r' Hne; by rewrite lookup_insert_ne|].
    split; [exists (set_timestamp dp (now_utc env)); rewrite lookup_insert_eq;
            repeat split; auto|].
    split; [done|]. split; [done|]. split; [|split; [|split]].
    + intros o2 w2 H2. unfold resume_put in H2. case_bool_decide; [|done].
      destruct (full _); [by simplify_eq|].
      by apply ingest_finish_outcome in H2 as (_ & -> & _).
    + destruct (iteration_spec penv w bp) as (w1 & E1 & Ho1 & _). by rewrite E1.
    + unfold start. by destruct (running (pipeline w)).
    + unfold stop. by destruct (running (pipeline w)).
Qed.

Lemma only_a_missing_timestamp_is_set_witness :
  let w := unstamped_world in
  let w' := world_after [(sample_env, 0%nat)] unstamped_world in
  let dp := unstamped_point in
  (∀ r', r' ≠ 0%nat → objects w' !! r' = objects w !! r')
  ∧ (∃ dp', objects w' !! 0%nat = Some dp'
       ∧ symbol dp' = symbol dp ∧ price dp' = price dp ∧ volume dp' = volume dp
       ∧ bid dp' = bid dp ∧ ask dp' = ask dp ∧ source dp' = source dp
       ∧ data_type dp' = data_type dp ∧ metadata dp' = metadata dp
       ∧ (timestamp dp' = timestamp dp
          ∨ (timestamp dp = None ∧ timestamp dp' = Some (now_utc sample_env))))
  ∧ (timestamp dp ≠ None → objects w' = objects w)
  ∧ (Returned true = Returned false → objects w' = objects w)
  ∧ (∀ o2 w2, resume_put sample_env 0%nat w = Some (o2, w2) → objects w2 = objects w)
  ∧ objects (batch_processor_iteration sample_proc_env w (new_processor 0)).1.1 = objects w
  ∧ objects (start 5 w) = objects w
  ∧ objects (stop w) = objects w.
Proof.
  apply (only_a_missing_timestamp_is_set
           sample_env 0%nat unstamped_world
           (world_after [(sample_env, 0%nat)] unstamped_world)
           unstamped_point (Returned true) sample_proc_env (new_processor 0) 5).
  - reflexivity.
  - vm_compute. reflexivity.
Defined.

(** C7, as stated, fails for a point constructed without a timestamp: after
    [ingest_data_point] the caller's object carries the current time in its
    [timestamp] field. *)
Lemma ingest_mutates_unstamped_point :
  objects unstamped_world !! 0%nat = Some unstamped_point
  ∧ timestamp unstamped_point = None
  ∧ fst <$> ingest_data_point sample_env 0%nat unstamped_world = Some (Returned true)
  ∧ (λ ow, objects ow.2 !! 0%nat) <$> ingest_data_point sample_env 0%nat unstamped_world
    = Some (Some (set_timestamp unstamped_point sample_instant))
  ∧ timestamp (set_timestamp unstamped_point sample_instant) = Some sample_instant
  ∧ set_timestamp unstamped_point sample_instant ≠ unstamped_point.
Proof.
  repeat split; try (vm_compute; reflexivity).
  discriminate.
Qed.

(** ** The ISO-8601 codec *)

Lemma digit_val_digit (z : Z) : 0 ≤ z ≤ 9 → digit_val (digit z) = Some z.
Proof.
  intros H.
  assert (Hc : z = 0 ∨ z = 1 ∨ z = 2 ∨ z = 3 ∨ z = 4 ∨ z = 5 ∨ z = 6 ∨ z = 7 ∨ z = 8 ∨ z = 9)
    by lia.
  repeat (destruct Hc as [->|Hc]; [reflexivity|]). subst z. reflexivity.
Qed.

Lemma digit_not_sign (z : Z) : 0 ≤ z ≤ 9 → digit z ≠ dash ∧ digit z ≠ plus_sign.
Proof.
  intros H.
  assert (Hc : z = 0 ∨ z = 1 ∨ z = 2 ∨ z = 3 ∨ z = 4 ∨ z = 5 ∨ z = 6 ∨ z = 7 ∨ z = 8 ∨ z = 9)
    by lia.
  repeat (destruct Hc as [->|Hc]; [by split|]). subst z. by split.
Qed.

Lemma mod10_digit (z : Z) : 0 ≤ z mod 10 ≤ 9.
Proof. pose proof (Z.mod_pos_bound z 10). lia. Qed.

Lemma parse_int_fmt2 (z : Z) : 0 ≤ z < 100 → parse_int (fmt2 z) = Some z.
Proof.
  intros H. unfold fmt2, parse_int, parse_digits_from.
  rewrite !digit_val_digit by apply mod10_digit.
  f_equal. pose proof (Z.div_mod z 10). pose proof (Z.mod_small (z / 10) 10).
  pose proof (Z.div_pos z 10). pose proof (Z.div_lt_upper_bound z 10 10). lia.
Qed.

Lemma parse_int_fmt4 (z : Z) : 0 ≤ z < 10000 → parse_int (fmt4 z) = Some z.
Proof.
  intros H. unfold fmt4, parse_int, parse_digits_from.
  rewrite !digit_val_digit by apply mod10_digit.
  f_equal. Z.to_euclidean_division_equations. lia.
Qed.

Lemma parse_int_fmt6 (z : Z) : 0 ≤ z < 1000000 → parse_int (fmt6 z) = Some z.
Proof.
  intros H. unfold fmt6, parse_int, parse_digits_from.
  rewrite !digit_val_digit by apply mod10_digit.
  f_equal. Z.to_euclidean_division_equations. lia.
Qed.

Lemma find_sign_none (s : list ascii) :
  unsigned_chars s → find_sign s = None.
Proof.
  induction 1 as [|x s [Hd Hp] Hs IH]; [done|]. simpl.
  rewrite !bool_decide_eq_false_2 by done. by rewrite IH.
Qed.

Lemma find_sign_app (c : ascii) (s1 s2 : list ascii) :
  c = plus_sign ∨ c = dash →
  unsigned_chars s1 → find_sign (s1 ++ c :: s2) = Some (length s1).
Proof.
  intros Hc. induction 1 as [|x s [Hd Hp] Hs IH]; simpl.
  - destruct Hc as [->| ->]; [by rewrite bool_decide_eq_true_2|].
    rewrite (bool_decide_eq_true_2 (dash = dash)) by done. by rewrite orb_true_r.
  - rewrite !bool_decide_eq_false_2 by done. simpl. by rewrite IH.
Qed.

Lemma fmt2_unsigned (z : Z) : unsigned_chars (fmt2 z).
Proof. repeat constructor; apply digit_not_sign, mod10_digit. Qed.

Lemma fmt6_unsigned (z : Z) : unsigned_chars (fmt6 z).
Proof. repeat constructor; apply digit_not_sign, mod10_digit. Qed.

Lemma format_time_unsigned (h m s us : Z) : unsigned_chars (format_time h m s us).
Proof.
  unfold format_time, unsigned_chars. rewrite !Forall_app.
  repeat split; try apply fmt2_unsigned; try (by repeat constructor).
  destruct (us =? 0); [constructor|].
  constructor; [by split|apply fmt6_unsigned].
Qed.

Lemma parse_time_of_day (h m s us : Z) :
  0 ≤ h < 100 → 0 ≤ m < 100 → 0 ≤ s < 100 → 0 ≤ us < 1000000 →
  parse_hh_mm_ss_ff (format_time h m s us) = Some (h, m, s, us).
Proof.
  intros Hh Hm Hs Hus.
  pose proof (parse_int_fmt2 h Hh) as Eh.
  pose proof (parse_int_fmt2 m Hm) as Em.
  pose proof (parse_int_fmt2 s Hs) as Es.
  pose proof (parse_int_fmt6 us Hus) as Eus.
  unfold format_time, fmt2, fmt6 in *.
  destruct (us =? 0) eqn:Hz; cbn [app parse_hh_mm_ss_ff].
  - apply Z.eqb_eq in Hz. subst us.
    rewrite Eh. cbn [mbind option_bind]. case_bool_decide; [|done].
    rewrite Em. cbn [mbind option_bind]. rewrite Es. done.
  - rewrite Eh. cbn [mbind option_bind]. case_bool_decide; [|done].
    rewrite Em. cbn [mbind option_bind]. rewrite Es. cbn [mbind option_bind].
    case_bool_decide; [|done].
    unfold parse_fraction. cbn [length].
    case_bool_decide; [done|]. case_bool_decide; [|done].
    rewrite Eus. done.
Qed.

Lemma format_offset_digits_unsigned (a : Z) : unsigned_chars (format_offset_digits a).
Proof.
  unfold format_offset_digits, unsigned_chars. rewrite !Forall_app.
  repeat split; try apply fmt2_unsigned; try (by repeat constructor).
  destruct (_ =? 0); [constructor|]. rewrite !Forall_app.
  repeat split; try apply fmt2_unsigned; try (by repeat constructor).
  destruct (_ =? 0); [constructor|].
  constructor; [by split|apply fmt6_unsigned].
Qed.

Lemma parse_offset_digits (a : Z) :
  0 ≤ a < microseconds_per_day →
  ∃ th tm ts tus,
    parse_hh_mm_ss_ff (format_offset_digits a) = Some (th, tm, ts, tus)
    ∧ (th * 3600 + tm * 60 + ts) * 1000000 + tus = a
    ∧ 0 ≤ th * 3600 + tm * 60 + ts ∧ 0 ≤ tus < 1000000
    ∧ (length (format_offset_digits a) = 5 ∨ length (format_offset_digits a) = 8
       ∨ length (format_offset_digits a) = 15)%nat.
Proof.
  unfold microseconds_per_day. intros Ha.
  unfold format_offset_digits.
  set (hh := a / 3600000000). set (r := a mod 3600000000).
  set (mm := r / 60000000). set (ss := r mod 60000000).
  assert (Hhh : 0 ≤ hh < 100) by (unfold hh; Z.to_euclidean_division_equations; lia).
  assert (Hmm : 0 ≤ mm < 100) by (unfold mm, r; Z.to_euclidean_division_equations; lia).
  assert (Hss : 0 ≤ ss / 1000000 < 100)
    by (unfold ss, r; Z.to_euclidean_division_equations; lia).
  assert (Hus : 0 ≤ ss mod 1000000 < 1000000)
    by (unfold ss, r; Z.to_euclidean_division_equations; lia).
  assert (Hsum : (hh * 3600 + mm * 60 + ss / 1000000) * 1000000 + ss mod 1000000 = a)
    by (unfold hh, mm, ss, r; Z.to_euclidean_division_equations; lia).
  pose proof (parse_int_fmt2 hh Hhh) as Eh.
  pose proof (parse_int_fmt2 mm Hmm) as Em.
  pose proof (parse_int_fmt2 _ Hss) as Es.
  pose proof (parse_int_fmt6 _ Hus) as Eus.
  unfold fmt2, fmt6 in *.
  destruct (ss =? 0) eqn:Hz.
  - apply Z.eqb_eq in Hz. exists hh, mm, 0, 0.
    cbn [app parse_hh_mm_ss_ff length].
    rewrite Eh. cbn [mbind option_bind]. case_bool_decide; [|done]. rewrite Em.
    rewrite Hz in Hsum.
    change (0 / 1000000) with 0 in Hsum. change (0 mod 1000000) with 0 in Hsum.
    split; [done|]. split; [lia|]. split; [lia|]. split; [lia|]. by left.
  - destruct (ss mod 1000000 =? 0) eqn:Hz2.
    + apply Z.eqb_eq in Hz2. exists hh, mm, (ss / 1000000), 0.
      cbn [app parse_hh_mm_ss_ff length].
      rewrite Eh. cbn [mbind option_bind]. case_bool_decide; [|done]. rewrite Em.
      cbn [mbind option_bind]. rewrite Es.
      split; [done|]. split; [lia|]. split; [lia|]. split; [lia|]. right. by left.
    + exists hh, mm, (ss / 1000000), (ss mod 1000000).
      cbn [app parse_hh_mm_ss_ff length].
      rewrite Eh. cbn [mbind option_bind]. case_bool_decide; [|done]. rewrite Em.
      cbn [mbind option_bind]. rewrite Es. cbn [mbind option_bind].
      case_bool_decide; [|done].
      unfold parse_fraction. cbn [length].
      case_bool_decide; [done|]. case_bool_decide; [|done].
      rewrite Eus. split; [done|]. split; [done|]. split; [lia|]. split; [lia|].
      right. by right.
Qed.

Lemma format_time_length (h m s us : Z) : (8 ≤ length (format_time h m s us))%nat.
Proof. unfold format_time, fmt2. rewrite !length_app. simpl. lia. Qed.

Lemma parse_isoformat_time_naive (h m s us : Z) :
  0 ≤ h < 100 → 0 ≤ m < 100 → 0 ≤ s < 100 → 0 ≤ us < 1000000 →
  parse_isoformat_time (format_time h m s us) = Some (h, m, s, us, None).
Proof.
  intros Hh Hm Hs Hus. unfold parse_isoformat_time.
  rewrite find_sign_none by apply format_time_unsigned.
  by rewrite parse_time_of_day.
Qed.

Lemma reparsed_tz_spec (o secs tus : Z) :
  secs * 1000000 + tus = Z.abs o → 0 ≤ secs → 0 ≤ tus < 1000000 →
  tzinfo_from_isoformat_results
    (Some ((if o <? 0 then -1 else 1) * secs, (if o <? 0 then -1 else 1) * tus))
  = Some (reparsed_tz o).
Proof.
  intros Hsum Hsecs Htus. unfold tzinfo_from_isoformat_results, reparsed_tz.
  destruct (Z.ltb_spec o 0) as [Hneg|Hpos];
    match goal with
    | |- context [?a * secs =? 0] => destruct (Z.eqb_spec (a * secs) 0) as [Hz|Hnz]
    end;
    destruct (Z.ltb_spec (Z.abs o) 1000000) as [Hsmall|Hbig];
    try reflexivity; try lia; do 2 f_equal; lia.
Qed.

Lemma parse_isoformat_time_aware (h m s us o : Z) :
  0 ≤ h < 100 → 0 ≤ m < 100 → 0 ≤ s < 100 → 0 ≤ us < 1000000 →
  - microseconds_per_day < o < microseconds_per_day →
  ∃ tzres,
    parse_isoformat_time (format_time h m s us ++ format_offset (Some o))
    = Some (h, m, s, us, Some tzres)
    ∧ tzinfo_from_isoformat_results (Some tzres) = Some (reparsed_tz o).
Proof.
  intros Hh Hm Hs Hus Ho. unfold parse_isoformat_time, format_offset.
  set (T := format_time h m s us).
  set (D := format_offset_digits (Z.abs o)).
  set (sign := if o <? 0 then dash else plus_sign).
  pose proof (format_time_unsigned h m s us) as HT. fold T in HT.
  assert (Habs : 0 ≤ Z.abs o < microseconds_per_day) by lia.
  destruct (parse_offset_digits (Z.abs o) Habs)
    as (th & tm & ts & tus & Ep & Esum & Hsecs & Htus & El).
  fold D in Ep, El.
  assert (Hsign : sign = plus_sign ∨ sign = dash).
  { unfold sign. destruct (o <? 0); [by right|by left]. }
  rewrite (find_sign_app sign T D Hsign HT).
  rewrite list_lookup_middle by done.
  rewrite take_app_length.
  assert (ET : parse_hh_mm_ss_ff T = Some (h, m, s, us)) by (by apply parse_time_of_day).
  rewrite ET.
  cbn [mbind option_bind].
  rewrite (cons_middle sign T D), (assoc_L (++)).
  replace (S (length T)) with (length (T ++ [sign])) by (rewrite length_app; simpl; lia).
  rewrite drop_app_length.
  assert (Hl : bool_decide (length D = 5%nat) || bool_decide (length D = 8%nat)
               || bool_decide (length D = 15%nat) = true).
  { destruct El as [E|[E|E]]; by rewrite E. }
  rewrite Hl, Ep. cbn [mbind option_bind].
  eexists. split; [reflexivity|].
  assert (Esgn : (if bool_decide (Some sign = Some dash) then -1 else 1)
                 = (if o <? 0 then -1 else 1)).
  { unfold sign. destruct (o <? 0); [by rewrite bool_decide_eq_true_2|].
    by rewrite bool_decide_eq_false_2. }
  rewrite Esgn. by apply reparsed_tz_spec.
Qed.

Lemma valid_datetime_ranges (d : datetime) :
  valid_datetime d = true →
  1 ≤ year d ≤ 9999 ∧ 1 ≤ month d ≤ 12 ∧ 1 ≤ day d ≤ 31
  ∧ 0 ≤ hour d ≤ 23 ∧ 0 ≤ minute d ≤ 59 ∧ 0 ≤ second d ≤ 59
  ∧ 0 ≤ microsecond d ≤ 999999
  ∧ (∀ o, utcoffset d = Some o → - microseconds_per_day < o < microseconds_per_day).
Proof.
  unfold valid_datetime. rewrite !andb_true_iff, !Z.leb_le.
  intros ((((((((((((((Hy1 & Hy2) & Hm1) & Hm2) & Hd1) & Hd2) & Hh1) & Hh2) & Hmi1) & Hmi2)
             & Hs1) & Hs2) & Hu1) & Hu2) & Hoff).
  assert (Hdim : days_in_month (year d) (month d) ≤ 31).
  { unfold days_in_month. repeat case_match; lia. }
  repeat (split; [lia|]).
  intros o Ho. rewrite Ho in Hoff. apply andb_true_iff in Hoff as [H1 H2].
  apply Z.ltb_lt in H1. apply Z.ltb_lt in H2. lia.
Qed.

Lemma valid_reparsed (d : datetime) :
  valid_datetime d = true → valid_datetime (reparsed d) = true.
Proof.
  unfold valid_datetime. intros H. apply andb_true_iff in H as [Hfields Hoff].
  apply andb_true_iff. split; [exact Hfields|].
  unfold utcoffset in *. destruct d as [y mo dd h mi s us [t|]]; [|done].
  cbn [tz reparsed fmap option_fmap option_map utcoffset] in *.
  unfold reparsed_tz. destruct (Z.abs (tz_offset t) <? 1000000); [done|exact Hoff].
Qed.

(** [fromisoformat] reads back what [isoformat] printed, on every datetime
    the constructor admits, aware or naive. *)
Lemma fromisoformat_isoformat (d : datetime) :
  valid_datetime d = true → fromisoformat (isoformat d) = Some (reparsed d).
Proof.
  intros Hvalid.
  destruct (valid_datetime_ranges d Hvalid)
    as (Hy & Hmo & Hd & Hh & Hmi & Hs & Hus & Hoff).
  unfold fromisoformat, isoformat.
  rewrite list_ascii_of_string_of_list_ascii.
  pose proof (parse_int_fmt4 (year d) ltac:(lia)) as Ey.
  pose proof (parse_int_fmt2 (month d) ltac:(lia)) as Emo.
  pose proof (parse_int_fmt2 (day d) ltac:(lia)) as Ed.
  unfold isoformat_chars. unfold fmt4, fmt2 in *.
  cbn [app take drop firstn skipn parse_isoformat_date length].
  rewrite (bool_decide_eq_true_2 (dash = dash)) by done. cbn [andb].
  rewrite Ey, Emo, Ed. cbn [mbind option_bind].
  rewrite bool_decide_eq_false_2 by lia.
  set (T := format_time (hour d) (minute d) (second d) (microsecond d)).
  assert (Ht : ∃ tzres,
             parse_isoformat_time (T ++ format_offset (utcoffset d))
             = Some (hour d, minute d, second d, microsecond d, tzres)
             ∧ tzinfo_from_isoformat_results tzres = reparsed_tz <$> utcoffset d).
  { unfold T. destruct (utcoffset d) as [o|] eqn:Eo.
    - destruct (parse_isoformat_time_aware (hour d) (minute d) (second d) (microsecond d) o)
        as (tzres & Ep & Etz); try lia; [by apply Hoff|].
      exists (Some tzres). by split.
    - exists None. cbn [format_offset]. rewrite app_nil_r.
      split; [apply parse_isoformat_time_naive; lia|done]. }
  destruct Ht as (tzres & Ht & Etz).
  rewrite drop_0, Ht. cbn [mbind option_bind]. rewrite Etz.
  fold (reparsed d). by rewrite (valid_reparsed d Hvalid).
Qed.

Lemma reparsed_naive (d : datetime) : tz d = None → reparsed d = d.
Proof. destruct d as [y mo dd h mi s us t]. simpl. by intros ->. Qed.

Lemma reparsed_timezone (d : datetime) (o : Z) :
  tz d = Some (Timezone o) → o = 0 ∨ 1000000 ≤ Z.abs o → reparsed d = d.
Proof.
  destruct d as [y mo dd h mi s us t]. simpl. intros -> Ho.
  unfold reparsed, reparsed_tz, utcoffset. simpl.
  destruct (Z.ltb_spec (Z.abs o) 1000000) as [Hsmall|Hbig]; [|done].
  destruct Ho as [->|Ho]; [done|lia].
Qed.

Lemma same_fields_refl (a b : datetime) :
  year a = year b → month a = month b → day a = day b → hour a = hour b →
  minute a = minute b → second a = second b → microsecond a = microsecond b →
  same_fields a b = true.
Proof.
  intros H1 H2 H3 H4 H5 H6 H7. unfold same_fields.
  by rewrite H1, H2, H3, H4, H5, H6, H7, !Z.eqb_refl.
Qed.

(** When the text form of an aware datetime reads back as a datetime that
    Python's [==] deems equal to it. *)
Lemma datetime_eq_reparsed (d : datetime) (o : Z) :
  utcoffset d = Some o →
  datetime_eq d (reparsed d) = true
  ↔ fold_dependent d = false ∧ (o = 0 ∨ 1000000 ≤ Z.abs o).
Proof.
  intros Ho.
  assert (Hsf : same_fields d (reparsed d) = true) by (by apply same_fields_refl).
  unfold datetime_eq. rewrite Hsf.
  unfold utcoffset, fold_dependent in *.
  destruct d as [y mo dd h mi s us [[o0|k o0 b]|]]; simpl in *; simplify_eq.
  - unfold reparsed_tz. destruct (Z.ltb_spec (Z.abs o) 1000000) as [Hsmall|Hbig]; simpl.
    + destruct (Z.eqb_spec o 0) as [->|Hnz]; [naive_solver|].
      unfold utc_microseconds. simpl.
      split; [intros E; apply Z.eqb_eq in E; lia|intros [_ [?|?]]; lia].
    + rewrite Z.eqb_refl. naive_solver.
  - unfold reparsed_tz. destruct (Z.ltb_spec (Z.abs o) 1000000) as [Hsmall|Hbig]; simpl.
    + destruct b; simpl; [split; [done|by intros [? _]]|].
      destruct (Z.eqb_spec o 0) as [->|Hnz]; [naive_solver|].
      unfold utc_microseconds. simpl.
      split; [intros E; apply Z.eqb_eq in E; lia|intros [_ [?|?]]; lia].
    + destruct b; simpl; [split; [done|by intros [? _]]|]. rewrite Z.eqb_refl. naive_solver.
Qed.

(** ** The dictionary codec of a data point *)

Lemma construct_asdict (p : MarketDataPoint) :
  construct (asdict p) = Some p.
Proof.
  destruct p as [sym ts pr vol b a src dty md].
  unfold construct, asdict, kwarg. simpl.
  destruct ts, b, a, md; reflexivity.
Qed.

(** The round trip for any timestamp the [datetime] constructor admits: the
    point comes back with its timestamp read back from the text form. *)
Lemma from_dict_to_dict (p : MarketDataPoint) (d : datetime) :
  timestamp p = Some d → valid_datetime d = true →
  to_dict p ≫= from_dict = Some (set_timestamp p (reparsed d)).
Proof.
  intros Hts Hvalid. unfold to_dict. rewrite Hts. cbn [mbind option_bind].
  unfold from_dict.
  assert (Hget : dict_get "timestamp" (dict_set "timestamp" (VStr (isoformat d)) (asdict p))
                 = Some (VStr (isoformat d))) by reflexivity.
  rewrite Hget. cbn [mbind option_bind].
  rewrite (fromisoformat_isoformat d Hvalid). cbn [mbind option_bind].
  assert (Hset : dict_set "timestamp" (VDatetime (reparsed d))
                   (dict_set "timestamp" (VStr (isoformat d)) (asdict p))
                 = asdict (set_timestamp p (reparsed d))) by reflexivity.
  rewrite Hset. apply construct_asdict.
Qed.

Lemma set_timestamp_same (p : MarketDataPoint) (d : datetime) :
  timestamp p = Some d → set_timestamp p d = p.
Proof. destruct p. simpl. by intros ->. Qed.

(** C10 (amended): for a data point whose timestamp is a timezone-aware
    instant, [MarketDataPoint.from_dict(p.to_dict())] returns the point
    with every other field unchanged and the timestamp read back from its
    [isoformat] text: the same calendar fields, with the fixed-offset
    timezone of the same UTC offset, except that an offset under one second
    is read back as UTC.  The new timestamp compares equal to the old one exactly when
    the old offset does not depend on the fold and is zero or at least one
    second in magnitude; for a [datetime.timezone] with such an offset the
    returned point equals [p] field for field. *)
Theorem dict_round_trip (p : MarketDataPoint) (d : datetime) :
  timestamp p = Some d →
  valid_datetime d = true →
  aware d = true →
  ∃ data q,
    to_dict p = Some data
    ∧ dict_get "timestamp" data = Some (VStr (isoformat d))
    ∧ fromisoformat (isoformat d) = Some (reparsed d)
    ∧ from_dict data = Some q
    ∧ q = set_timestamp p (reparsed d)
    ∧ (∀ o, utcoffset d = Some o →
         datetime_eq d (reparsed d) = true
         ↔ fold_dependent d = false ∧ (o = 0 ∨ 1000000 ≤ Z.abs o))
    ∧ (∀ o, tz d = Some (Timezone o) → o = 0 ∨ 1000000 ≤ Z.abs o → q = p).
Proof.
  intros Hts Hvalid _.
  pose proof (from_dict_to_dict p d Hts Hvalid) as Hrt.
  unfold to_dict in *. rewrite Hts in *. cbn [mbind option_bind] in Hrt.
  eexists _, _. split; [reflexivity|]. split; [reflexivity|].
  split; [by apply fromisoformat_isoformat|]. split; [exact Hrt|].
  split; [reflexivity|]. split; [by apply datetime_eq_reparsed|].
  intros o Htz Ho. rewrite (reparsed_timezone d o Htz Ho).
  by apply set_timestamp_same.
Qed.

Lemma dict_round_trip_witness :
  let d := Datetime 2024 3 7 9 5 0 123 (Some (Timezone (-19800000000))) in
  let p := mkMarketDataPoint "AAPL" (Some d) (3 # 2) 10 None (Some (1 # 2)) "test" "quote"
                             (Some [("venue"%string, VStr "X")]) in
  ∃ data q,
    to_dict p = Some data
    ∧ dict_get "timestamp" data = Some (VStr (isoformat d))
    ∧ fromisoformat (isoformat d) = Some (reparsed d)
    ∧ from_dict data = Some q
    ∧ q = set_timestamp p (reparsed d)
    ∧ (∀ o, utcoffset d = Some o →
         datetime_eq d (reparsed d) = true
         ↔ fold_dependent d = false ∧ (o = 0 ∨ 1000000 ≤ Z.abs o))
    ∧ (∀ o, tz d = Some (Timezone o) → o = 0 ∨ 1000000 ≤ Z.abs o → q = p).
Proof.
  apply dict_round_trip; reflexivity.
Defined.

(** C10, where the claim fails.  A timestamp whose timezone is one
    microsecond east of UTC prints its offset as [+00:00:00.000001] and is
    read back as UTC, another instant; a timestamp in a zone at a wall time
    whose offset depends on the fold is read back with a fixed offset and
    compares unequal to the original. *)
Lemma round_trip_changes_some_aware_timestamps :
  let d1 := Datetime 2024 3 7 9 5 0 123 (Some (Timezone 1)) in
  let p1 := mkMarketDataPoint "AAPL" (Some d1) (3 # 2) 10 None None "test" "price" None in
  let d2 := Datetime 2024 11 3 1 30 0 0
                     (Some (Zone "America/New_York" (-14400000000) true)) in
  let p2 := mkMarketDataPoint "AAPL" (Some d2) (3 # 2) 10 None None "test" "price" None in
  (valid_datetime d1 = true ∧ aware d1 = true
   ∧ isoformat d1 = "2024-03-07T09:05:00.000123+00:00:00.000001"%string
   ∧ ∃ q, to_dict p1 ≫= from_dict = Some q
          ∧ timestamp q = Some (Datetime 2024 3 7 9 5 0 123 (Some (Timezone 0)))
          ∧ timestamp_eq (timestamp p1) (timestamp q) = false
          ∧ q ≠ p1)
  ∧ (valid_datetime d2 = true ∧ aware d2 = true
     ∧ isoformat d2 = "2024-11-03T01:30:00-04:00"%string
     ∧ ∃ q, to_dict p2 ≫= from_dict = Some q
            ∧ timestamp q
              = Some (Datetime 2024 11 3 1 30 0 0 (Some (Timezone (-14400000000))))
            ∧ timestamp_eq (timestamp p2) (timestamp q) = false
            ∧ q ≠ p2).
Proof.
  split.
  - split; [reflexivity|]. split; [reflexivity|]. split; [reflexivity|].
    eexists. split; [vm_compute; reflexivity|].
    split; [reflexivity|]. split; [reflexivity|]. intros E. discriminate E.
  - split; [reflexivity|]. split; [reflexivity|]. split; [reflexivity|].
    eexists. split; [vm_compute; reflexivity|].
    split; [reflexivity|]. split; [reflexivity|]. intros E. discriminate E.
Qed.

Example isoformat_sample :
  isoformat (Datetime 2024 3 7 9 5 0 123 (Some (Timezone (-19800000000))))
  = "2024-03-07T09:05:00.000123-05:30"%string.
Proof. reflexivity. Qed.

(** ** A full queue parks the caller *)

Lemma repeat_snoc {A} (x : A) (n : nat) : repeat x n ++ [x] = repeat x (S n).
Proof. induction n as [|n IH]; simpl; [done|]. by rewrite IH. Qed.

Lemma length_repeat_n {A} (x : A) (n : nat) : length (repeat x n) = n.
Proof. induction n as [|n IH]; simpl; [done|]. by rewrite IH. Qed.

Lemma drop_repeat {A} (x : A) (j n : nat) : drop j (repeat x n) = repeat x (n - j).
Proof.
  revert j. induction n as [|n IH]; intros [|j]; simpl; try done.
Qed.

Lemma deque_append_repeat (m k : nat) (p : Q) :
  (k ≤ m)%nat → (0 < m)%nat →
  deque_append (Deque m (repeat p k)) p = Deque m (repeat p (Nat.min (k + 1) m)).
Proof.
  intros Hk Hm. unfold deque_append. simpl. rewrite repeat_snoc. simpl length.
  rewrite length_repeat_n. rewrite drop_repeat.
  assert (E : (S k - (S k - m) = Nat.min (k + 1) m)%nat) by lia. by rewrite E.
Qed.

(** A call with a valid point on a full queue is parked: it does not
    return, and the counters and the queue stay as they are. *)
Lemma ingest_parks_when_full (env : IngestEnv) (r : ref) (w : World) (dp : MarketDataPoint) :
  reachable w →
  objects w !! r = Some dp →
  (0 < price dp)%Q → 0 ≤ volume dp →
  Z.of_nat (length (queue_items (data_queue (pipeline w)))) = 10000 →
  ∃ w', ingest_data_point env r w = Some (Suspended, w')
    ∧ metrics (pipeline w') = metrics (pipeline w)
    ∧ data_queue (pipeline w') = data_queue (pipeline w)
    ∧ waiting w' = waiting w ++ [r].
Proof.
  intros Hreach Hr Hp Hv Hfull.
  destruct (reachable_inv w Hreach) as [Hh _ Hmax].
  destruct (validate_accepts _ dp Hh Hp Hv) as (lg & Hval & _).
  unfold ingest_data_point. rewrite Hr. simpl. rewrite Hval. simpl.
  assert (Hf : full (data_queue (pipeline w)) = true).
  { unfold full. rewrite Hmax, Hfull. done. }
  rewrite Hf. eexists. split; [done|]. done.
Qed.

(** The same stamped valid point ingested [n] times while the queue has
    room for all of them: every call returns [True] and the point is queued
    [n] more times; its symbol's history fills up with its price. *)
Lemma ingest_all_fill (env : IngestEnv) (r : ref) (dp : MarketDataPoint) (n : nat) :
  ∀ (w : World) (k : nat),
  reachable w →
  objects w !! r = Some dp → timestamp dp ≠ None →
  (0 < price dp)%Q → 0 ≤ volume dp →
  Z.of_nat (length (queue_items (data_queue (pipeline w)))) + Z.of_nat n ≤ 10000 →
  history_of (validator (pipeline w)) (symbol dp) = Deque 100 (repeat (price dp) k) →
  (k ≤ 100)%nat →
  ∃ w', ingest_all (repeat (env, r) n) w = Some (repeat (Returned true) n, w')
    ∧ reachable w'
    ∧ objects w' = objects w
    ∧ queue_items (data_queue (pipeline w'))
      = queue_items (data_queue (pipeline w)) ++ repeat r n
    ∧ valid_points (metrics (pipeline w')) = valid_points (metrics (pipeline w)) + Z.of_nat n
    ∧ history_of (validator (pipeline w')) (symbol dp)
      = Deque 100 (repeat (price dp) (Nat.min (k + n) 100)).
Proof.
  induction n as [|n IH]; intros w k Hreach Hr Hts Hp Hv Hroom Hhist Hk.
  - exists w. simpl. rewrite app_nil_r, Z.add_0_r, Nat.add_0_r, Nat.min_l by done. done.
  - assert (Hroom1 : Z.of_nat (length (queue_items (data_queue (pipeline w)))) < 10000) by lia.
    destruct (ingest_accepts env r w dp Hreach Hr Hp Hv Hroom1)
      as (w1 & lg & lgk & E & Hval & _ & _ & Hq & _ & Hph & _).
    assert (Ho : objects w1 = objects w).
    { destruct (ingest_objects env r w w1 dp (Returned true) Hr E) as [H|(_ & H & _)]; done. }
    assert (Hreach1 : reachable w1).
    { eapply reachable_step; [done|]. by eapply step_ingest. }
    assert (Hhist1 : history_of (validator (pipeline w1)) (symbol dp)
                     = Deque 100 (repeat (price dp) (Nat.min (k + 1) 100))).
    { unfold history_of at 1. rewrite Hph, Hhist. apply deque_append_repeat; lia. }
    destruct (IH w1 (Nat.min (k + 1) 100) Hreach1) as (w' & E' & Hr' & Ho' & Hq' & Hv' & Hh');
      try done.
    { by rewrite Ho. }
    { rewrite Hq, length_app. simpl. lia. }
    { lia. }
    exists w'. simpl. rewrite E. simpl. rewrite E'. simpl.
    split; [done|]. split; [done|]. split; [by rewrite Ho', Ho|].
    split; [by rewrite Hq', Hq, <- (assoc_L (++))|].
    split; [rewrite Hv', Hval; lia|].
    rewrite Hh'.
    assert (E2 : (Nat.min (Nat.min (k + 1) 100 + n) 100 = Nat.min (k + S n) 100)%nat) by lia.
    by rewrite E2.
Qed.

Lemma world_after_fill (env : IngestEnv) (r : ref) (dp : MarketDataPoint) (n : nat)
      (w : World) :
  reachable w →
  objects w !! r = Some dp → timestamp dp ≠ None →
  (0 < price dp)%Q → 0 ≤ volume dp →
  queue_items (data_queue (pipeline w)) = [] →
  Z.of_nat n = 10000 →
  history_of (validator (pipeline w)) (symbol dp) = Deque 100 [] →
  let w' := world_after (repeat (env, r) n) w in
  reachable w'
  ∧ objects w' = objects w
  ∧ Z.of_nat (length (queue_items (data_queue (pipeline w')))) = 10000
  ∧ valid_points (metrics (pipeline w')) = valid_points (metrics (pipeline w)) + 10000
  ∧ history_of (validator (pipeline w')) (symbol dp) = Deque 100 (repeat (price dp) 100).
Proof.
  intros Hreach Hr Hts Hp Hv Hq0 Hn Hh0 w'.
  destruct (ingest_all_fill env r dp n w 0 Hreach Hr Hts Hp Hv)
    as (w1 & E & Hr1 & Ho & Hq & Hv1 & Hh).
  - rewrite Hq0. simpl length. lia.
  - exact Hh0.
  - lia.
  - assert (Ew : w' = w1).
    { unfold w', world_after. rewrite E. reflexivity. }
    rewrite Ew. split; [exact Hr1|]. split; [exact Ho|].
    split; [rewrite Hq, Hq0, app_nil_l, length_repeat_n; exact Hn|].
    split; [rewrite Hv1, Hn; reflexivity|].
    rewrite Hh. assert (En : Nat.min (0 + n) 100 = 100%nat) by lia. rewrite En. reflexivity.
Qed.

Lemma full_world_spec :
  reachable full_world
  ∧ objects full_world = sample_heap
  ∧ Z.of_nat (length (queue_items (data_queue (pipeline full_world)))) = 10000
  ∧ valid_points (metrics (pipeline full_world)) = 0 + 10000
  ∧ history_of (validator (pipeline full_world)) "AAPL" = Deque 100 (repeat 100%Q 100).
Proof.
  apply (world_after_fill sample_env 0%nat (sample_point 100 10) (Z.to_nat 10000)
                          sample_world).
  - apply reachable_fresh.
  - reflexivity.
  - discriminate.
  - reflexivity.
  - discriminate.
  - reflexivity.
  - apply Z2Nat.id. discriminate.
  - reflexivity.
Qed.

(** A call parked on a full queue goes on as soon as it is woken up with a
    free slot, and then has the effects of an accepted call. *)
Lemma parked_call_completes (env : IngestEnv) (r : ref) (w : World) (dp : MarketDataPoint) :
  r ∈ waiting w → objects w !! r = Some dp →
  full (data_queue (pipeline w)) = false →
  ∃ w', resume_put env r w = Some (Returned true, w')
    ∧ valid_points (metrics (pipeline w')) = valid_points (metrics (pipeline w)) + 1
    ∧ queue_items (data_queue (pipeline w')) = queue_items (data_queue (pipeline w)) ++ [r]
    ∧ waiting w' = remove_first r (waiting w).
Proof.
  intros Hin Hr Hroom. unfold resume_put.
  rewrite bool_decide_eq_true_2 by done. rewrite Hroom.
  set (w1 := mkWorld _ _ _ _ _).
  destruct (ingest_finish_spec env r w1 dp Hr)
    as (w' & E & _ & Hw & _ & _ & _ & _ & _ & _ & Hq & Hm & _).
  exists w'. split; [done|]. rewrite Hm, Hq, Hw. done.
Qed.

(** C2, as stated, fails on a full queue: after 10000 accepted points with
    no batch processor draining the queue, a call with a valid point does
    not return; it is parked at the [put], and [valid_points] and the queue
    are as before. *)
Lemma full_queue_parks_valid_point :
  reachable full_world
  ∧ objects full_world !! 1%nat = Some (sample_point 200 10)
  ∧ (0 < price (sample_point 200 10))%Q
  ∧ 0 ≤ volume (sample_point 200 10)
  ∧ Z.of_nat (length (queue_items (data_queue (pipeline full_world)))) = 10000
  ∧ ∃ w', ingest_data_point sample_env 1%nat full_world = Some (Suspended, w')
          ∧ valid_points (metrics (pipeline w')) = valid_points (metrics (pipeline full_world))
          ∧ data_queue (pipeline w') = data_queue (pipeline full_world).
Proof.
  destruct full_world_spec as (Hreach & Ho & Hq & _ & _).
  assert (Hr : objects full_world !! 1%nat = Some (sample_point 200 10))
    by (rewrite Ho; reflexivity).
  split; [exact Hreach|]. split; [exact Hr|]. split; [reflexivity|].
  split; [discriminate|]. split; [exact Hq|].
  destruct (ingest_parks_when_full sample_env 1%nat full_world (sample_point 200 10)
                                   Hreach Hr) as (w' & E & Hm & Hdq & _).
  - reflexivity.
  - discriminate.
  - exact Hq.
  - exists w'. split; [exact E|]. split; [rewrite Hm; reflexivity|exact Hdq].
Qed.


(** * Further properties of the pipeline *)

(** ** Bounded memory *)

Lemma deque_append_bounded {A} (m : nat) (d : deque A) (x : A) :
  deque_bounded m d → deque_bounded m (deque_append d x).
Proof.
  intros [Hm Hlen]. unfold deque_bounded, deque_append. simpl.
  split; [done|]. rewrite length_drop, length_app. simpl. lia.
Qed.

Lemma history_of_bounded (v : DataQualityValidator) (sym : string) :
  max_history v = 100%nat →
  map_Forall (λ _ h, deque_bounded 100 h) (price_history v) →
  deque_bounded 100 (history_of v sym).
Proof.
  intros Hmax Hall. unfold history_of.
  destruct (price_history v !! sym) as [h|] eqn:E; [exact (Hall sym h E)|].
  split; simpl; [done|lia].
Qed.

Lemma validate_bounded (v v' : DataQualityValidator) (dp : MarketDataPoint)
      (ok : bool) (lg : list LogRecord) :
  max_history v = 100%nat →
  map_Forall (λ _ h, deque_bounded 100 h) (price_history v) →
  validate_price_data v dp = (ok, v', lg) →
  max_history v' = 100%nat
  ∧ map_Forall (λ _ h, deque_bounded 100 h) (price_history v').
Proof.
  intros Hmax Hall Hval.
  pose proof (history_of_bounded v (symbol dp) Hmax Hall) as Hh.
  pose proof (deque_append_bounded 100 _ (price dp) Hh) as Happ.
  unfold validate_price_data in Hval.
  repeat case_match; simplify_eq; simpl; (split; [done|]); try done;
    by apply map_Forall_insert_2.
Qed.

Lemma bounded_fresh h bs bt k s : bounded (new_world h (new_pipeline bs bt k s)).
Proof.
  split; simpl; try lia; try reflexivity.
  - intros sym hist Hlook. by rewrite lookup_empty in Hlook.
  - split; simpl; [reflexivity|lia].
Qed.

Lemma bounded_after_put (env : IngestEnv) (r : ref) (w w' : World) (o : Outcome) :
  bounded w → maxsize (data_queue (pipeline w)) = 10000 →
  full (data_queue (pipeline w)) = false →
  ingest_finish env r w = Some (o, w') → bounded w'.
Proof.
  intros [Hmh Hh Hl Hq Hrj Hv] Hmax Hroom H.
  apply full_iff in Hroom; [|done].
  apply ingest_finish_effect in H as (_ & _ & _ & Hv' & Hq' & Hm').
  split; rewrite ?Hv', ?Hq', ?Hm'; simpl; try done.
  - by apply deque_append_bounded.
  - rewrite length_app. simpl. lia.
  - rewrite length_app. simpl. lia.
Qed.

Lemma bounded_step (w w' : World) :
  pipeline_inv w → pipeline_step w w' → bounded w → bounded w'.
Proof.
  intros [_ _ Hmax] Hstep Hb.
  destruct Hstep as [env r w o w' H|env r w o w' H|env w bp w' bp' fl H|t w|w|r dp w H].
  - unfold ingest_data_point in H.
    destruct (objects w !! r) as [dp|] eqn:Hr; [|done]. simpl in H.
    destruct (validate_price_data _ dp) as [[ok v'] lg] eqn:Hval.
    destruct Hb as [Hmh Hh Hl Hq Hrj Hv].
    destruct (validate_bounded _ _ _ _ _ Hmh Hh Hval) as [Hmh' Hh'].
    destruct ok; simpl in H.
    + destruct (full (data_queue (pipeline w))) eqn:Hfull.
      * simplify_eq. by split.
      * eapply bounded_after_put in H; [done| |done|done]. by split.
    + simplify_eq. split; simpl; try done. lia.
  - unfold resume_put in H. case_bool_decide; [|done].
    destruct (full (data_queue (pipeline w))) eqn:Hfull; [by simplify_eq|].
    eapply bounded_after_put in H; [done| |done|done]. by destruct Hb.
  - unfold batch_processor_step in H. destruct (running _); [|done].
    destruct Hb as [Hmh Hh Hl Hq Hrj Hv].
    assert (Hdrop : (length (drop 1 (queue_items (data_queue (pipeline w))))
                     ≤ length (queue_items (data_queue (pipeline w))))%nat)
      by (rewrite length_drop; lia).
    unfold batch_processor_iteration in H. rewrite dequeue_into_spec in H.
    destruct (_ && _).
    + destruct (postgres_storage (pipeline w)) as [st|].
      * destruct (store_batch _ _ _ _) as [[ok s1] lg]. simplify_eq.
        split; simpl; try done; lia.
      * simplify_eq. split; simpl; try done; lia.
    + simplify_eq. split; simpl; try done; lia.
  - destruct Hb. unfold start. destruct (running (pipeline w)); by split.
  - destruct Hb. unfold stop. destruct (running (pipeline w)); by split.
  - destruct Hb. by split.
Qed.

Lemma reachable_bounded (w : World) : reachable w → bounded w.
Proof.
  intros (h & bs & bt & k & s & Hrun).
  revert w Hrun. apply (rtc_ind_r (λ w, bounded w)).
  - apply bounded_fresh.
  - intros y z Hy Hstep IH. eapply bounded_step; [|done|done].
    apply reachable_inv. by exists h, bs, bt, k, s.
Qed.

(** X1: in every state of a pipeline the price history of a symbol is a
    deque of capacity 100 that holds at most 100 prices. *)
Theorem price_history_is_bounded (w : World) (sym : string) (h : deque Q) :
  reachable w →
  price_history (validator (pipeline w)) !! sym = Some h →
  dq_maxlen h = 100%nat ∧ (length (dq_items h) ≤ 100)%nat.
Proof.
  intros Hreach Hh. destruct (reachable_bounded w Hreach) as [_ Hall _ _ _ _].
  exact (Hall sym h Hh).
Qed.

Lemma price_history_is_bounded_witness :
  dq_maxlen (history_of (validator (pipeline busy_world)) "AAPL") = 100%nat
  ∧ (length (dq_items (history_of (validator (pipeline busy_world)) "AAPL")) ≤ 100)%nat.
Proof.
  apply (price_history_is_bounded busy_world "AAPL").
  - apply world_after_reachable, reachable_fresh.
  - vm_compute. reflexivity.
Defined.

(** X2: in every state of a pipeline the ring of latency samples has
    capacity 1000 and holds at most 1000 samples. *)
Theorem latency_samples_are_bounded (w : World) :
  reachable w →
  dq_maxlen (latency_samples (metrics (pipeline w))) = 1000%nat
  ∧ (length (dq_items (latency_samples (metrics (pipeline w)))) ≤ 1000)%nat.
Proof.
  intros Hreach. by destruct (reachable_bounded w Hreach) as [_ _ Hl _ _ _].
Qed.

Lemma latency_samples_are_bounded_witness :
  dq_maxlen (latency_samples (metrics (pipeline busy_world))) = 1000%nat
  ∧ (length (dq_items (latency_samples (metrics (pipeline busy_world)))) ≤ 1000)%nat.
Proof.
  apply (latency_samples_are_bounded busy_world).
  apply world_after_reachable, reachable_fresh.
Defined.

(** X3: in every state of a pipeline the data queue holds at most 10000
    points, and never more points than [valid_points] counts; the counters
    are never negative. *)
Theorem queue_is_bounded (w : World) :
  reachable w →
  Z.of_nat (length (queue_items (data_queue (pipeline w)))) ≤ 10000
  ∧ Z.of_nat (length (queue_items (data_queue (pipeline w))))
    ≤ valid_points (metrics (pipeline w))
  ∧ 0 ≤ rejected_points (metrics (pipeline w))
  ∧ 0 ≤ total_processed (metrics (pipeline w)).
Proof.
  intros Hreach. destruct (reachable_bounded w Hreach) as [_ _ _ Hq Hrj Hv].
  destruct (reachable_inv w Hreach) as [_ Hc _]. unfold counters_agree in Hc.
  repeat split; try done. lia.
Qed.

Lemma queue_is_bounded_witness :
  Z.of_nat (length (queue_items (data_queue (pipeline busy_world)))) ≤ 10000
  ∧ Z.of_nat (length (queue_items (data_queue (pipeline busy_world))))
    ≤ valid_points (metrics (pipeline busy_world))
  ∧ 0 ≤ rejected_points (metrics (pipeline busy_world))
  ∧ 0 ≤ total_processed (metrics (pipeline busy_world)).
Proof.
  apply (queue_is_bounded busy_world).
  apply world_after_reachable, reachable_fresh.
Defined.

(** ** What validation does to the histories *)

Lemma history_of_insert_ne (v : DataQualityValidator) (sym sym' : string) (h : deque Q) :
  sym ≠ sym' →
  history_of (mkValidator (<[sym := h]> (price_history v)) (max_history v)) sym'
  = history_of v sym'.
Proof. intros Hne. unfold history_of. simpl. by rewrite lookup_insert_ne. Qed.

Lemma history_of_insert_eq (v : DataQualityValidator) (sym : string) (h : deque Q) :
  history_of (mkValidator (<[sym := h]> (price_history v)) (max_history v)) sym = h.
Proof. unfold history_of. simpl. by rewrite lookup_insert_eq. Qed.

(** X4: validating a point never touches the history of another symbol,
    whatever the verdict; and a rejected point enters no history at all:
    after a rejection every symbol's history holds the prices it held
    before. *)
Theorem validation_keeps_other_histories (v : DataQualityValidator) (dp : MarketDataPoint) :
  let v' := (validate_price_data v dp).1.2 in
  max_history v' = max_history v
  ∧ (∀ sym, sym ≠ symbol dp → price_history v' !! sym = price_history v !! sym)
  ∧ ((validate_price_data v dp).1.1 = false →
     ∀ sym, dq_items (history_of v' sym) = dq_items (history_of v sym)).
Proof.
  unfold validate_price_data.
  destruct (Qle_bool (price dp) 0); [by simpl|].
  destruct (volume dp <? 0); [by simpl|].
  assert (Hne : ∀ h sym, sym ≠ symbol dp →
            <[symbol dp := h]> (price_history v) !! sym = price_history v !! sym).
  { intros h sym Hs. by rewrite lookup_insert_ne. }
  destruct (10 <? length (dq_items (history_of v (symbol dp))))%nat.
  - destruct (Qeq_bool _ 0).
    + simpl. split; [done|]. split; [by apply Hne|]. intros _ sym.
      destruct (decide (symbol dp = sym)) as [<-|Hs].
      * by rewrite history_of_insert_eq.
      * by rewrite history_of_insert_ne.
    + destruct (Qltb _ _); simpl; (split; [done|]); (split; [by apply Hne|done]).
  - simpl. split; [done|]. split; [by apply Hne|done].
Qed.

Lemma validation_keeps_other_histories_witness :
  let v := validator (pipeline busy_world) in
  let dp := sample_point (-1) 10 in
  let v' := (validate_price_data v dp).1.2 in
  max_history v' = max_history v
  ∧ (∀ sym, sym ≠ symbol dp → price_history v' !! sym = price_history v !! sym)
  ∧ ((validate_price_data v dp).1.1 = false →
     ∀ sym, dq_items (history_of v' sym) = dq_items (history_of v sym)).
Proof.
  apply (validation_keeps_other_histories (validator (pipeline busy_world))
                                          (sample_point (-1) 10)).
Defined.

(** X5: when validation accepts a point, its price is the newest entry of
    its symbol's history, which is the old history with the price appended,
    cut to the capacity from the left (the oldest prices go first). *)
Theorem accepted_price_is_newest (v v' : DataQualityValidator) (dp : MarketDataPoint)
        (lg : list LogRecord) :
  validate_price_data v dp = (true, v', lg) →
  (0 < dq_maxlen (history_of v (symbol dp)))%nat →
  dq_items (history_of v' (symbol dp))
  = last_k (dq_maxlen (history_of v (symbol dp)))
           (dq_items (history_of v (symbol dp)) ++ [price dp])
  ∧ last (dq_items (history_of v' (symbol dp))) = Some (price dp).
Proof.
  intros Hval Hcap.
  assert (Hv' : v' = mkValidator
                (<[symbol dp := deque_append (history_of v (symbol dp)) (price dp)]>
                   (price_history v)) (max_history v)).
  { unfold validate_price_data in Hval. repeat case_match; by simplify_eq. }
  rewrite Hv', history_of_insert_eq. unfold deque_append, last_k. simpl.
  split; [done|].
  set (items := dq_items (history_of v (symbol dp)) ++ [price dp]).
  assert (Hlen : length items = S (length (dq_items (history_of v (symbol dp))))).
  { unfold items. rewrite length_app. simpl. lia. }
  rewrite last_lookup, length_drop, lookup_drop.
  replace (length items - dq_maxlen (history_of v (symbol dp))
           + Nat.pred (length items - (length items - dq_maxlen (history_of v (symbol dp)))))%nat
    with (length (dq_items (history_of v (symbol dp)))) by lia.
  unfold items. by rewrite list_lookup_middle.
Qed.

Lemma accepted_price_is_newest_witness :
  let v := validator (pipeline busy_world) in
  let v' := (validate_price_data v (sample_point 200 10)).1.2 in
  dq_items (history_of v' "AAPL")
  = last_k (dq_maxlen (history_of v "AAPL")) (dq_items (history_of v "AAPL") ++ [200%Q])
  ∧ last (dq_items (history_of v' "AAPL")) = Some 200%Q.
Proof.
  apply (accepted_price_is_newest (validator (pipeline busy_world)) _ (sample_point 200 10)
           [PriceAnomaly "AAPL" 200 (recent_mean (history_of (validator (pipeline busy_world)) "AAPL"))]).
  - vm_compute. reflexivity.
  - vm_compute. lia.
Defined.

(** ** The streaming sink *)

Lemma create_topic_sent (o : CreateOutcome) (k : KafkaStreamer) (topic : string) :
  let k1 := (create_topic o k topic).1 in
  producer k1 = producer k ∧ producer_closed k1 = producer_closed k
  ∧ admin_client k1 = admin_client k ∧ kafka_sent k1 = kafka_sent k
  ∧ topics_created k ⊆ topics_created k1.
Proof.
  unfold create_topic. destruct (negb (admin_client k) || _); [by simpl|].
  destruct o; simpl; repeat split; try done. set_solver.
Qed.

(** X6: [create_topic] asks the broker at most once per created topic: once
    a topic has been created, creating it again changes nothing and logs
    nothing, whatever the broker would answer; and a streamer without admin
    client never creates anything. *)
Theorem create_topic_is_idempotent (o o' : CreateOutcome) (k : KafkaStreamer)
        (topic : string) :
  let k1 := (create_topic CreateOk k topic).1 in
  create_topic o' k1 topic = (k1, [])
  ∧ (admin_client k = false → create_topic o k topic = (k, [])).
Proof.
  split.
  - unfold create_topic.
    destruct (negb (admin_client k) || bool_decide (topic ∈ topics_created k)) eqn:E.
    + simpl. by rewrite E.
    + simpl. apply orb_false_iff in E as [Ha _]. rewrite Ha. simpl.
      rewrite bool_decide_eq_true_2; [done|]. set_solver.
  - intros Ha. unfold create_topic. by rewrite Ha.
Qed.

Lemma create_topic_is_idempotent_witness :
  let k := mkKafka "localhost:9092" true true ∅ false [] in
  let k1 := (create_topic CreateOk k "market_data_aapl").1 in
  create_topic CreateError k1 "market_data_aapl" = (k1, [])
  ∧ (admin_client k = false → create_topic CreateOk k "market_data_aapl" = (k, [])).
Proof.
  apply (create_topic_is_idempotent CreateOk CreateError
           (mkKafka "localhost:9092" true true ∅ false []) "market_data_aapl").
Defined.

(** X7: on a streamer whose producer has not been closed, [publish_data]
    returns [True] exactly when there is a producer, the point has a
    timestamp and [send] does not raise; it then hands over exactly one
    message, the point's dictionary under the given topic, and otherwise
    none.  A failed topic creation does not prevent the send. *)
Theorem publish_data_result (env : KafkaEnv) (k : KafkaStreamer) (topic : string)
        (dp : MarketDataPoint) :
  producer_closed k = false →
  let '(ok, k', lg) := publish_data env k topic dp in
  (ok = true ↔ producer k = true ∧ timestamp dp ≠ None ∧ send_raises env = false)
  ∧ (ok = true → ∃ d, to_dict dp = Some d ∧ kafka_sent k' = kafka_sent k ++ [(topic, d)])
  ∧ (ok = false → kafka_sent k' = kafka_sent k)
  ∧ topics_created k ⊆ topics_created k'.
Proof.
  intros Hopen. unfold publish_data.
  destruct (producer k) eqn:Hp; simpl.
  - pose proof (create_topic_sent (create_outcome env) k topic) as Hct. simpl in Hct.
    destruct (create_topic (create_outcome env) k topic) as [k1 lg1] eqn:Ect.
    simpl in Hct. destruct Hct as (Hp1 & Hc1 & _ & Hs1 & Ht1).
    unfold to_dict. destruct (timestamp dp) as [d|] eqn:Hts.
    + rewrite Hc1, Hopen, orb_false_r.
      destruct (send_raises env); simpl.
      * repeat split; try done. by intros (_ & _ & ?).
      * repeat split; try done. intros _. eexists. split; [done|]. by rewrite Hs1.
    + repeat split; try done. by intros (_ & ? & _).
  - repeat split; try done. by intros (? & _).
Qed.

Lemma publish_data_result_witness :
  let k := mkKafka "localhost:9092" true true ∅ false [] in
  let '(ok, k', lg) :=
    publish_data (mkKafkaEnv CreateError false) k "market_data_aapl" (sample_point 100 10) in
  (ok = true ↔ producer k = true ∧ timestamp (sample_point 100 10) ≠ None
               ∧ send_raises (mkKafkaEnv CreateError false) = false)
  ∧ (ok = true → ∃ d, to_dict (sample_point 100 10) = Some d
                      ∧ kafka_sent k' = kafka_sent k ++ [("market_data_aapl"%string, d)])
  ∧ (ok = false → kafka_sent k' = kafka_sent k)
  ∧ topics_created k ⊆ topics_created k'.
Proof.
  apply (publish_data_result (mkKafkaEnv CreateError false)
           (mkKafka "localhost:9092" true true ∅ false []) "market_data_aapl"
           (sample_point 100 10)).
  reflexivity.
Defined.

Lemma ascii_lower_idempotent (c : ascii) : ascii_lower (ascii_lower c) = ascii_lower c.
Proof.
  unfold ascii_lower.
  destruct ((65 <=? nat_of_ascii c)%nat && (nat_of_ascii c <=? 90)%nat) eqn:E.
  - apply andb_true_iff in E as [H1 H2].
    apply Nat.leb_le in H1. apply Nat.leb_le in H2.
    rewrite nat_ascii_embedding by lia.
    assert (Hhi : (nat_of_ascii c + 32 <=? 90)%nat = false) by (apply Nat.leb_gt; lia).
    by rewrite Hhi, andb_false_r.
  - by rewrite E.
Qed.

(** X8: the topic of a symbol does not depend on the case of its letters:
    lower-casing is idempotent, so a symbol and its lower-case form are
    published under the same topic. *)
Theorem topic_ignores_case (sym : string) :
  lower (lower sym) = lower sym ∧ topic_of (lower sym) = topic_of sym.
Proof.
  assert (H : lower (lower sym) = lower sym).
  { induction sym as [|c s IH]; simpl; [done|]. by rewrite ascii_lower_idempotent, IH. }
  split; [done|]. unfold topic_of. by rewrite H.
Qed.

(** X9: publishing does not change what [ingest_data_point] does with a
    point: whether a streamer is configured, whatever the Kafka client
    does and however long the publish takes, the call has the same outcome
    and leaves the same heap, queue, validator, counters of processed,
    valid and rejected points, and parked calls.  Only the streamer's own
    state, the log and the latency sample, which spans the publish, can
    differ. *)
Theorem ingest_ignores_streaming (env : IngestEnv) (kenv : KafkaEnv) (t_exit' : Q)
        (r : ref) (w : World) (k : option KafkaStreamer) :
  let w2 := mkWorld (objects w) (set_kafka (pipeline w) k) (waiting w) (tasks_created w)
                    (log w) in
  (λ ow, (ow.1, without_streaming ow.2))
    <$> ingest_data_point (with_publish env kenv t_exit') r w2
  = (λ ow, (ow.1, without_streaming ow.2)) <$> ingest_data_point env r w.
Proof.
  unfold ingest_data_point. simpl.
  destruct (objects w !! r) as [dp|] eqn:Hr; [|done]. simpl.
  destruct (validate_price_data (validator (pipeline w)) dp) as [[ok v'] lg]. simpl.
  destruct ok; simpl; [|done].
  destruct (full (data_queue (pipeline w))); [done|].
  unfold ingest_finish. simpl.
  destruct (match timestamp dp with
            | Some _ => objects w
            | None => <[r:=set_timestamp dp (now_utc env)]> (objects w)
            end !! r) as [dp1|]; [|done]. simpl.
  destruct k as [k0|], (kafka_streamer (pipeline w)) as [k1|];
    repeat (destruct (publish_data _ _ _ _) as [[? ?] ?]); done.
Qed.

(** A publish that takes two seconds and fails changes the latency sample
    of the call and nothing else the caller or the batch processor sees. *)
Example slow_failing_publish :
  let k := mkKafka "localhost:9092" true true ∅ false [] in
  let w2 := mkWorld (objects sample_world) (set_kafka (pipeline sample_world) (Some k))
                    (waiting sample_world) (tasks_created sample_world) (log sample_world) in
  let env2 := with_publish sample_env (mkKafkaEnv CreateOk true) 2 in
  (λ ow, (ow.1, without_streaming ow.2)) <$> ingest_data_point env2 0%nat w2
  = (λ ow, (ow.1, without_streaming ow.2)) <$> ingest_data_point sample_env 0%nat sample_world
  ∧ (λ ow, dq_items (latency_samples (metrics (pipeline ow.2))))
      <$> ingest_data_point env2 0%nat w2
    ≠ (λ ow, dq_items (latency_samples (metrics (pipeline ow.2))))
        <$> ingest_data_point sample_env 0%nat sample_world.
Proof. split; [vm_compute; reflexivity|]. vm_compute. discriminate. Qed.

(** ** The storage sink *)

Lemma rows_of_length (h : heap) (refs : list ref) (rows : list Row) :
  rows_of h refs = Some rows → length rows = length refs.
Proof.
  unfold rows_of. intros H. apply length_mapM in H. done.
Qed.

(** X10: [store_batch] returns [True] exactly when there is an open pool,
    the batch is not empty, every row can be built and the database raises
    nowhere; the table then grows by one row per point, in batch order.
    In particular an empty batch is answered with [False]. *)
Theorem store_batch_success (fault : DbFault) (h : heap) (s : PostgreSQLStorage)
        (data_points : list ref) :
  let res := store_batch fault h s data_points in
  (res.1.1 = true ↔
     pool s = true ∧ pool_closed s = false ∧ data_points ≠ [] ∧ fault = NoFault
     ∧ is_Some (rows_of h data_points))
  ∧ (res.1.1 = true →
     ∃ rows, Forall2 (λ r row, h !! r ≫= row_of = Some row) data_points rows
             ∧ length rows = length data_points
             ∧ market_data res.1.2 = market_data s ++ rows)
  ∧ (data_points = [] → res = (false, s, [])).
Proof.
  split; [|split].
  - unfold store_batch.
    destruct (pool s) eqn:Hp; simpl; [|split; [done|by intros (? & _)]].
    case_bool_decide as Hne; simpl; [split; [done|by intros (_ & _ & ? & _)]|].
    destruct (pool_closed s) eqn:Hc; simpl; [split; [done|by intros (_ & ? & _)]|].
    destruct fault; simpl;
      try (split; [done|by intros (_ & _ & _ & ? & _)]).
    + destruct (rows_of h data_points) as [rows|]; simpl.
      * split; [|done]. intros _. repeat split; try done; by eexists.
      * split; [done|]. intros (_ & _ & _ & _ & [? ?]). done.
    + destruct (rows_of h data_points); simpl;
        (split; [done|by intros (_ & _ & _ & ? & _)]).
    + destruct (rows_of h data_points); simpl;
        (split; [done|by intros (_ & _ & _ & ? & _)]).
  - intros Hok.
    destruct (store_batch_all_or_nothing fault h s data_points)
      as [[Hf _]|(_ & _ & _ & rows & Hrows & Hmd)].
    + simpl in *. congruence.
    + exists rows. split; [by apply mapM_Some|]. split; [by eapply rows_of_length|done].
  - intros ->. unfold store_batch. simpl. by rewrite orb_true_r.
Qed.

(** ** Order and content of the queue *)

(** X11: the points of a sequence of calls enter the queue in call order:
    after the calls the queue is the queue before them followed by the
    points of the calls that returned [True], in the order of the calls. *)
Theorem accepted_points_are_queued_in_order
        (calls : list (IngestEnv * ref)) (w w' : World) (os : list Outcome) :
  ingest_all calls w = Some (os, w') →
  length os = length calls
  ∧ queue_items (data_queue (pipeline w'))
    = queue_items (data_queue (pipeline w)) ++ accepted_refs calls os.
Proof.
  revert w os. induction calls as [|[env r] calls IH]; intros w os H; simpl in H.
  - simplify_eq. by rewrite app_nil_r.
  - destruct (ingest_data_point env r w) as [[o w1]|] eqn:E1; [|done]. simpl in H.
    destruct (ingest_all calls w1) as [[os' w2]|] eqn:E2; [|done]. simpl in H.
    simplify_eq. apply IH in E2 as [Hlen Hq]. apply ingest_queue_effect in E1.
    split; [simpl; by rewrite Hlen|].
    rewrite Hq, E1. simpl. by rewrite <- (assoc_L (++)).
Qed.

Lemma accepted_points_are_queued_in_order_witness :
  length [Returned true; Returned false; Returned true] = length sample_calls
  ∧ queue_items (data_queue (pipeline (world_after sample_calls sample_world)))
    = queue_items (data_queue (pipeline sample_world))
      ++ accepted_refs sample_calls [Returned true; Returned false; Returned true].
Proof.
  apply (accepted_points_are_queued_in_order sample_calls sample_world).
  vm_compute. reflexivity.
Defined.

Lemma elem_of_remove_first (r x : ref) (l : list ref) :
  x ∈ remove_first r l → x ∈ l.
Proof.
  induction l as [|y l IH]; simpl; [done|].
  case_bool_decide.
  - intros Hx. by apply list_elem_of_further.
  - intros Hx. apply elem_of_cons in Hx as [->|Hx].
    + apply list_elem_of_here.
    + apply list_elem_of_further. by apply IH.
Qed.

Lemma held_points_stamped_fresh h bs bt k s :
  held_points_stamped (new_world h (new_pipeline bs bt k s)).
Proof. intros r Hr. simpl in Hr. by apply elem_of_nil in Hr. Qed.

Lemma held_after_put (env : IngestEnv) (r : ref) (w w' : World) (o : Outcome)
      (held : list ref) :
  (∀ x, x ∈ held ++ [r] → ∃ dp, objects w !! x = Some dp ∧ timestamp dp ≠ None) →
  (∀ x, x ∈ queue_items (data_queue (pipeline w)) ++ waiting w → x ∈ held) →
  ingest_finish env r w = Some (o, w') →
  held_points_stamped w'.
Proof.
  intros Hheld Hsub H.
  apply ingest_finish_effect in H as (_ & Ho & Hw & _ & Hq & _).
  intros x Hx. rewrite Ho. apply Hheld.
  rewrite Hq, Hw in Hx. simpl in Hx.
  rewrite !elem_of_app in Hx. rewrite elem_of_app.
  destruct Hx as [[Hx|Hx]|Hx]; [left|by right|left]; apply Hsub, elem_of_app; auto.
Qed.

Lemma held_points_stamped_step (w w' : World) :
  pipeline_step w w' → held_points_stamped w → held_points_stamped w'.
Proof.
  intros Hstep Hinv.
  destruct Hstep as [env r w o w' H|env r w o w' H|env w bp w' bp' fl H|t w|w|r dp w H].
  - unfold ingest_data_point in H.
    destruct (objects w !! r) as [dp|] eqn:Hr; [|done]. simpl in H.
    destruct (validate_price_data _ dp) as [[ok v'] lg] eqn:Hval.
    destruct ok; simpl in H; [|by simplify_eq].
    set (objects1 := match timestamp dp with
                     | Some _ => objects w
                     | None => <[r:=set_timestamp dp (now_utc env)]> (objects w)
                     end) in *.
    assert (Hkeep : ∀ x, x ∈ (queue_items (data_queue (pipeline w)) ++ waiting w) ++ [r] →
                         ∃ dp1, objects1 !! x = Some dp1 ∧ timestamp dp1 ≠ None).
    { intros x Hx. unfold objects1. destruct (timestamp dp) as [d|] eqn:Hts.
      - apply elem_of_app in Hx as [Hx|Hx]; [by apply Hinv|].
        apply list_elem_of_singleton in Hx as ->. exists dp. by rewrite Hts.
      - destruct (decide (x = r)) as [->|Hne].
        + rewrite lookup_insert_eq. by eexists.
        + rewrite lookup_insert_ne by done.
          apply elem_of_app in Hx as [Hx|Hx]; [by apply Hinv|].
          by apply list_elem_of_singleton in Hx. }
    destruct (full _).
    + simplify_eq. intros x Hx. simpl in Hx. apply Hkeep.
      rewrite !elem_of_app in Hx. rewrite !elem_of_app. tauto.
    + eapply held_after_put in H; [done|exact Hkeep|]. by intros x Hx.
  - unfold resume_put in H. case_bool_decide as Hin; [|done].
    destruct (full _); [by simplify_eq|].
    eapply (held_after_put _ _ _ _ _ (queue_items (data_queue (pipeline w)) ++ waiting w))
      in H; [done| |].
    + intros x Hx. apply Hinv.
      apply elem_of_app in Hx as [Hx|Hx]; [done|].
      apply list_elem_of_singleton in Hx as ->. apply elem_of_app. by right.
    + intros x Hx. simpl in Hx. rewrite !elem_of_app in Hx. rewrite elem_of_app.
      destruct Hx as [Hx|Hx]; [by left|right]. by eapply elem_of_remove_first.
  - unfold batch_processor_step in H. destruct (running _); [|done].
    destruct (iteration_spec env w bp) as (w1 & E & Ho & Hq & _).
    rewrite E in H. simplify_eq.
    assert (Hw : waiting w' = waiting w).
    { unfold batch_processor_iteration in E. rewrite dequeue_into_spec in E.
      repeat case_match; by simplify_eq. }
    intros x Hx. rewrite Ho. apply Hinv. rewrite Hq, Hw in Hx.
    rewrite elem_of_app in Hx. rewrite elem_of_app.
    destruct Hx as [Hx|Hx]; [left|by right]. by eapply subseteq_drop.
  - unfold start. destruct (running (pipeline w)); exact Hinv.
  - unfold stop. destruct (running (pipeline w)); exact Hinv.
  - intros x Hx. simpl in *. destruct (Hinv x Hx) as (dp0 & Hdp0 & Hts).
    exists dp0. split; [|done]. rewrite lookup_insert_ne; [done|]. congruence.
Qed.

Lemma reachable_held_points_stamped (w : World) : reachable w → held_points_stamped w.
Proof.
  intros (h & bs & bt & k & s & Hrun).
  revert w Hrun. apply (rtc_ind_r (λ w, held_points_stamped w)).
  - apply held_points_stamped_fresh.
  - intros y z _ Hstep IH. by eapply held_points_stamped_step.
Qed.

(** X12: every point the pipeline holds, in the queue or parked at the
    [put], has its timestamp set, so that serialising it with [to_dict]
    cannot fail. *)
Theorem held_points_have_timestamps (w : World) (r : ref) :
  reachable w →
  r ∈ queue_items (data_queue (pipeline w)) ++ waiting w →
  ∃ dp d, objects w !! r = Some dp ∧ timestamp dp = Some d ∧ is_Some (to_dict dp).
Proof.
  intros Hreach Hr.
  destruct (reachable_held_points_stamped w Hreach r Hr) as (dp & Hdp & Hts).
  destruct (timestamp dp) as [d|] eqn:E; [|done].
  exists dp, d. split; [done|]. split; [done|]. unfold to_dict. rewrite E. by eexists.
Qed.

Lemma held_points_have_timestamps_witness :
  ∃ dp d, objects (world_after [(sample_env, 0%nat)] unstamped_world) !! 0%nat = Some dp
          ∧ timestamp dp = Some d ∧ is_Some (to_dict dp).
Proof.
  apply (held_points_have_timestamps (world_after [(sample_env, 0%nat)] unstamped_world)).
  - apply world_after_reachable, reachable_fresh.
  - vm_compute. apply list_elem_of_here.
Defined.

(** ** Lifecycle and metrics *)

(** X13: [stop()] always leaves the pipeline stopped and stopping again
    changes nothing; it writes nothing to the table and takes nothing from
    the queue; and a batch processor that tests [self.running] after a stop
    leaves its loop at once, whatever its batch holds, so a partially
    filled batch is not flushed on shutdown. *)
Theorem stop_ends_the_batch_loop (w : World) (env : ProcEnv) (bp : BatchProcessor) :
  running (pipeline (stop w)) = false
  ∧ stop (stop w) = stop w
  ∧ batch_processor_step env (stop w) bp = None
  ∧ market_data <$> postgres_storage (pipeline (stop w))
    = market_data <$> postgres_storage (pipeline w)
  ∧ data_queue (pipeline (stop w)) = data_queue (pipeline w).
Proof.
  assert (Hrun : running (pipeline (stop w)) = false).
  { unfold stop. by destruct (running (pipeline w)) eqn:E. }
  split; [done|]. split; [unfold stop at 1; by rewrite Hrun|].
  split; [unfold batch_processor_step; by rewrite Hrun|].
  unfold stop. destruct (running (pipeline w)); simpl; [|done].
  split; [|done]. destruct (postgres_storage (pipeline w)) as [s|]; [|done].
  simpl. unfold storage_close. by destruct (pool s).
Qed.

Lemma Qmax_py_bounds (a b : Q) : (a <= Qmax_py a b)%Q ∧ (b <= Qmax_py a b)%Q.
Proof.
  unfold Qmax_py. destruct (Qltb a b) eqn:E.
  - apply Qltb_true in E. split; [by apply Qlt_le_weak|apply Qle_refl].
  - split; [apply Qle_refl|]. apply Qnot_lt_le. intros H. apply Qltb_true in H. congruence.
Qed.

Lemma foldl_Qmax_py_spec (l : list Q) (a : Q) :
  (a <= foldl Qmax_py a l)%Q
  ∧ (∀ x, x ∈ l → (x <= foldl Qmax_py a l)%Q)
  ∧ foldl Qmax_py a l ∈ a :: l.
Proof.
  revert a. induction l as [|y l IH]; intros a; simpl.
  - split; [apply Qle_refl|]. split; [by intros x Hx%elem_of_nil|apply list_elem_of_here].
  - destruct (IH (Qmax_py a y)) as (H1 & H2 & H3).
    destruct (Qmax_py_bounds a y) as [Ha Hy].
    split; [by eapply Qle_trans|]. split.
    + intros x Hx. apply elem_of_cons in Hx as [->|Hx]; [by eapply Qle_trans|by apply H2].
    + apply elem_of_cons in H3 as [H3|H3].
      * rewrite H3. unfold Qmax_py. destruct (Qltb a y).
        -- apply list_elem_of_further, list_elem_of_here.
        -- apply list_elem_of_here.
      * by do 2 apply list_elem_of_further.
Qed.

Lemma get_metrics_latency (now : Q) (p : DataIngestionPipeline) :
  let samples := dq_items (latency_samples (metrics p)) in
  avg_latency_ms (get_metrics now p)
  = match samples with
    | [] => 0%Q
    | _ => (py_sum samples / inject_Z (Z.of_nat (length samples)))%Q
    end
  ∧ max_latency_ms (get_metrics now p)
    = match samples with [] => 0%Q | _ => py_max_list samples end
  ∧ queue_size (get_metrics now p) = length (queue_items (data_queue p)).
Proof.
  unfold get_metrics. by destruct (dq_items (latency_samples (metrics p))).
Qed.

(** X14: in a metrics snapshot taken when there are latency samples,
    [max_latency_ms] is one of the samples and no sample exceeds it; with
    no sample [avg_latency_ms] and [max_latency_ms] are both 0;
    [queue_size] is the number of queued points. *)
Theorem latency_metrics (now : Q) (p : DataIngestionPipeline) :
  let samples := dq_items (latency_samples (metrics p)) in
  let snap := get_metrics now p in
  (samples ≠ [] →
     max_latency_ms snap ∈ samples
     ∧ (∀ x, x ∈ samples → (x <= max_latency_ms snap)%Q))
  ∧ (samples = [] → avg_latency_ms snap = 0%Q ∧ max_latency_ms snap = 0%Q)
  ∧ queue_size snap = length (queue_items (data_queue p)).
Proof.
  intros samples snap.
  destruct (get_metrics_latency now p) as (Havg & Hmax & Hq).
  fold samples in Havg, Hmax. fold snap in Havg, Hmax, Hq.
  split; [|split; [|done]].
  - intros Hne. destruct samples as [|x rest]; [done|].
    rewrite Hmax.
    destruct (foldl_Qmax_py_spec rest x) as (H1 & H2 & H3).
    split; [exact H3|].
    intros y Hy. simpl. apply elem_of_cons in Hy as [->|Hy]; [done|by apply H2].
  - intros E. by rewrite Havg, Hmax, E.
Qed.

Lemma latency_metrics_witness :
  let samples := dq_items (latency_samples (metrics (pipeline started_world))) in
  let snap := get_metrics 102 (pipeline started_world) in
  (samples ≠ [] →
     max_latency_ms snap ∈ samples
     ∧ (∀ x, x ∈ samples → (x <= max_latency_ms snap)%Q))
  ∧ (samples = [] → avg_latency_ms snap = 0%Q ∧ max_latency_ms snap = 0%Q)
  ∧ queue_size snap = length (queue_items (data_queue (pipeline started_world))).
Proof. apply (latency_metrics 102 (pipeline started_world)). Defined.

Lemma Qmax_py_one (a : Q) : (1 <= Qmax_py a 1)%Q.
Proof. by destruct (Qmax_py_bounds a 1). Qed.

(** X15: in every state of a pipeline and at any clock reading the
    reported throughput lies between 0 and [total_processed]; before the
    first [start()] it is 0. *)
Theorem throughput_is_bounded (now : Q) (w : World) :
  reachable w →
  (0 <= throughput_per_sec (get_metrics now (pipeline w)))%Q
  ∧ (throughput_per_sec (get_metrics now (pipeline w))
     <= inject_Z (total_processed (metrics (pipeline w))))%Q
  ∧ (start_time (metrics (pipeline w)) = None →
     throughput_per_sec (get_metrics now (pipeline w)) = 0%Q).
Proof.
  intros Hreach.
  assert (Htot : 0 ≤ total_processed (metrics (pipeline w))).
  { destruct (reachable_bounded w Hreach) as [_ _ _ _ _ Hv].
    destruct (reachable_inv w Hreach) as [_ Hc _]. unfold counters_agree in Hc. lia. }
  assert (Hthr : throughput_per_sec (get_metrics now (pipeline w))
                 = match start_time (metrics (pipeline w)) with
                   | Some t0 =>
                       if start_time_set (start_time (metrics (pipeline w)))
                       then (inject_Z (total_processed (metrics (pipeline w)))
                             / Qmax_py (now - t0) 1)%Q
                       else 0%Q
                   | None => 0%Q
                   end).
  { unfold get_metrics. by destruct (dq_items (latency_samples (metrics (pipeline w)))). }
  rewrite Hthr.
  assert (Hnn : (0 <= inject_Z (total_processed (metrics (pipeline w))))%Q).
  { change 0%Q with (inject_Z 0). by rewrite <- Zle_Qle. }
  destruct (start_time (metrics (pipeline w))) as [t0|]; [|by repeat split].
  destruct (start_time_set (Some t0)); [|by repeat split].
  pose proof (Qmax_py_one (now - t0)) as Hd.
  assert (Hpos : (0 < Qmax_py (now - t0) 1)%Q) by (by eapply Qlt_le_trans; [|exact Hd]).
  split; [|split; [|done]].
  - apply Qle_shift_div_l; [done|]. by rewrite Qmult_0_l.
  - apply Qle_shift_div_r; [done|].
    rewrite <- (Qmult_1_r (inject_Z (total_processed (metrics (pipeline w))))) at 1.
    rewrite !(Qmult_comm (inject_Z _)). by apply Qmult_le_compat_r.
Qed.

Lemma throughput_is_bounded_witness :
  (0 <= throughput_per_sec (get_metrics (201 # 2) (pipeline started_world)))%Q
  ∧ (throughput_per_sec (get_metrics (201 # 2) (pipeline started_world))
     <= inject_Z (total_processed (metrics (pipeline started_world))))%Q
  ∧ (start_time (metrics (pipeline started_world)) = None →
     throughput_per_sec (get_metrics (201 # 2) (pipeline started_world)) = 0%Q).
Proof.
  apply (throughput_is_bounded (201 # 2) started_world).
  apply world_after_reachable.
  destruct (reachable_fresh sample_heap 100 1 None None) as (h & bs & bt & k & s & Hrun).
  exists h, bs, bt, k, s. eapply rtc_r; [exact Hrun|]. apply step_start.
Defined.

(** ** Backpressure *)

(** X16: a call parked at the [put] completes as soon as it is woken up
    with a free slot: it returns [True], the point joins the tail of the
    queue, [valid_points] goes up by one and the call is no longer parked;
    woken up on a queue that is still full, it stays parked and nothing
    changes. *)
Theorem parked_call_is_resumed (env : IngestEnv) (r : ref) (w : World)
        (dp : MarketDataPoint) :
  r ∈ waiting w → objects w !! r = Some dp →
  (full (data_queue (pipeline w)) = false →
   ∃ w', resume_put env r w = Some (Returned true, w')
     ∧ valid_points (metrics (pipeline w')) = valid_points (metrics (pipeline w)) + 1
     ∧ queue_items (data_queue (pipeline w')) = queue_items (data_queue (pipeline w)) ++ [r]
     ∧ waiting w' = remove_first r (waiting w))
  ∧ (full (data_queue (pipeline w)) = true → resume_put env r w = Some (Suspended, w)).
Proof.
  intros Hin Hr. split.
  - intros Hroom. by eapply parked_call_completes.
  - intros Hfull. unfold resume_put. rewrite bool_decide_eq_true_2 by done. by rewrite Hfull.
Qed.

Lemma parked_call_is_resumed_witness :
  let w := mkWorld sample_heap (new_pipeline 100 1 None None) [1%nat] 0 [] in
  (full (data_queue (pipeline w)) = false →
   ∃ w', resume_put sample_env 1%nat w = Some (Returned true, w')
     ∧ valid_points (metrics (pipeline w')) = valid_points (metrics (pipeline w)) + 1
     ∧ queue_items (data_queue (pipeline w'))
       = queue_items (data_queue (pipeline w)) ++ [1%nat]
     ∧ waiting w' = remove_first 1%nat (waiting w))
  ∧ (full (data_queue (pipeline w)) = true →
     resume_put sample_env 1%nat w = Some (Suspended, w)).
Proof.
  apply (parked_call_is_resumed sample_env 1%nat
           (mkWorld sample_heap (new_pipeline 100 1 None None) [1%nat] 0 [])
           (sample_point 200 10)).
  - apply list_elem_of_here.
  - reflexivity.
Defined.

(** ** The dictionary form of a point *)

(** X17: the dictionary round trip is exact for a point with a naive
    timestamp: [from_dict(p.to_dict())] is [p]. *)
Theorem dict_round_trip_naive_timestamp (p : MarketDataPoint) (d : datetime) :
  timestamp p = Some d → valid_datetime d = true → tz d = None →
  ∃ data, to_dict p = Some data ∧ from_dict data = Some p.
Proof.
  intros Hts Hvalid Hnaive. pose proof (from_dict_to_dict p d Hts Hvalid) as Hrt.
  rewrite (reparsed_naive d Hnaive), (set_timestamp_same p d Hts) in Hrt.
  unfold to_dict in *. rewrite Hts in *. cbn [mbind option_bind] in Hrt. by eexists.
Qed.

Lemma dict_round_trip_naive_timestamp_witness :
  let d := Datetime 1999 12 31 23 59 59 0 None in
  let p := mkMarketDataPoint "SPY" (Some d) (5 # 4) 0 None None "unknown" "price" None in
  ∃ data, to_dict p = Some data ∧ from_dict data = Some p.
Proof.
  apply (dict_round_trip_naive_timestamp _ (Datetime 1999 12 31 23 59 59 0 None));
    reflexivity.
Defined.

Lemma dict_set_keys (k : string) (v v0 : pyval) (d : pydict) :
  dict_get k d = Some v0 → (dict_set k v d).*1 = d.*1.
Proof.
  induction d as [|[k' v'] d IH]; cbn [dict_set dict_get]; [done|].
  case_bool_decide as Hk; [by subst|]. intros H.
  rewrite !fmap_cons. f_equal. by apply IH.
Qed.

(** X19: [from_dict] refuses a dictionary that has a key which is not a
    field of the dataclass, and one that has no ["timestamp"] key. *)
Theorem from_dict_rejects_unknown_keys (data : pydict) (k : string) :
  (k ∈ data.*1 → k ∉ field_names → from_dict data = None)
  ∧ (dict_get "timestamp" data = None → from_dict data = None).
Proof.
  split.
  - intros Hin Hnf.
    assert (Hc : ∀ d, d.*1 = data.*1 → construct d = None).
    { intros d Hd. unfold construct.
      destruct (forallb (λ kv, bool_decide (kv.1 ∈ field_names)) d) eqn:Hall; [|done].
      exfalso. rewrite forallb_forall in Hall.
      rewrite <- Hd in Hin. apply list_elem_of_fmap in Hin as ([k0 v0] & -> & Hkv).
      apply list_elem_of_In in Hkv. apply Hall in Hkv.
      by apply bool_decide_eq_true in Hkv. }
    unfold from_dict. destruct (dict_get "timestamp" data) as [ts|] eqn:Hts; [|done].
    simpl. destruct ts; try (by apply Hc).
    destruct (fromisoformat s) as [d|]; [|done]. simpl.
    apply Hc. by eapply dict_set_keys.
  - intros Hnone. unfold from_dict. by rewrite Hnone.
Qed.

Lemma from_dict_rejects_unknown_keys_witness :
  let data := [("symbol"%string, VStr "SPY"); ("timestamp"%string, VNone);
               ("price"%string, VFloat 1); ("volume"%string, VInt 0);
               ("exchange"%string, VStr "NYSE")] in
  ("exchange"%string ∈ data.*1 → "exchange"%string ∉ field_names → from_dict data = None)
  ∧ (dict_get "timestamp" data = None → from_dict data = None).
Proof. apply from_dict_rejects_unknown_keys. Defined.

(** ** Sentiment scores as prices *)

Lemma count_present_nonneg (words : list string) (text : string) :
  0 ≤ count_present words text.
Proof. unfold count_present. lia. Qed.

Lemma ratio_bounds (a b : Z) :
  0 < b → - b ≤ a ≤ b →
  (- (1) <= inject_Z a / inject_Z b)%Q ∧ (inject_Z a / inject_Z b <= 1)%Q
  ∧ ((0 < inject_Z a / inject_Z b)%Q ↔ 0 < a).
Proof.
  intros Hb Hab.
  assert (Hbq : (0 < inject_Z b)%Q) by (change 0%Q with (inject_Z 0); by rewrite <- Zlt_Qlt).
  split; [|split].
  - apply Qle_shift_div_l; [done|].
    setoid_replace (- (1) * inject_Z b)%Q with (inject_Z (- b)) using relation Qeq
      by (rewrite inject_Z_opp; ring).
    rewrite <- Zle_Qle. lia.
  - apply Qle_shift_div_r; [done|]. rewrite Qmult_1_l, <- Zle_Qle. lia.
  - split.
    + intros Hpos. destruct (Z_lt_le_dec 0 a) as [Hlt|Hle]; [done|].
      exfalso. apply (Qlt_not_le _ _ Hpos).
      apply Qle_shift_div_r; [done|]. rewrite Qmult_0_l.
      change 0%Q with (inject_Z 0). by rewrite <- Zle_Qle.
    + intros Ha. apply Qlt_shift_div_l; [done|]. rewrite Qmult_0_l.
      change 0%Q with (inject_Z 0). by rewrite <- Zlt_Qlt.
Qed.

Lemma sentiment_score_facts (text : string) :
  let pos := count_present positive_words (lower text) in
  let neg := count_present negative_words (lower text) in
  (- (1) <= simple_sentiment_analysis text)%Q
  ∧ (simple_sentiment_analysis text <= 1)%Q
  ∧ ((0 < simple_sentiment_analysis text)%Q ↔ neg < pos)
  ∧ (pos + neg = 0 → simple_sentiment_analysis text = 0%Q).
Proof.
  intros pos neg. unfold simple_sentiment_analysis. fold pos neg.
  pose proof (count_present_nonneg positive_words (lower text)) as Hp.
  pose proof (count_present_nonneg negative_words (lower text)) as Hn.
  fold pos in Hp. fold neg in Hn.
  destruct (pos + neg =? 0) eqn:E.
  - apply Z.eqb_eq in E. repeat split; try done. lia.
  - apply Z.eqb_neq in E.
    destruct (ratio_bounds (pos - neg) (pos + neg)) as (H1 & H2 & H3); [lia|lia|].
    split; [done|]. split; [done|]. split; [|lia].
    rewrite H3. lia.
Qed.

(** X20: the sentiment score of a text lies between -1 and 1, and it is
    positive exactly when the text holds more of the positive keywords than
    of the negative ones; a text with no keyword scores 0. *)
Theorem sentiment_score_range (text : string) :
  let pos := count_present positive_words (lower text) in
  let neg := count_present negative_words (lower text) in
  (- (1) <= simple_sentiment_analysis text)%Q
  ∧ (simple_sentiment_analysis text <= 1)%Q
  ∧ ((0 < simple_sentiment_analysis text)%Q ↔ neg < pos)
  ∧ (pos + neg = 0 → simple_sentiment_analysis text = 0%Q).
Proof. apply sentiment_score_facts. Qed.

Lemma sentiment_score_range_witness :
  let text := "Record loss and poor outlook"%string in
  let pos := count_present positive_words (lower text) in
  let neg := count_present negative_words (lower text) in
  (- (1) <= simple_sentiment_analysis text)%Q
  ∧ (simple_sentiment_analysis text <= 1)%Q
  ∧ ((0 < simple_sentiment_analysis text)%Q ↔ neg < pos)
  ∧ (pos + neg = 0 → simple_sentiment_analysis text = 0%Q).
Proof. apply (sentiment_score_range "Record loss and poor outlook"). Defined.

(** X21: the news connector passes the sentiment score of an article as
    the price of its data point, with volume 0; the validator therefore
    accepts the point exactly when the article holds more positive than
    negative keywords: neutral and negative news are rejected. *)
Theorem news_point_accepted_iff_positive
        (v : DataQualityValidator) (sym : string) (ts : datetime)
        (headline summary url : option string) :
  history_positive v →
  let text := (default EmptyString headline ++ " " ++ default EmptyString summary)%string in
  (validate_price_data v (news_point sym ts headline summary url)).1.1 = true
  ↔ count_present negative_words (lower text) < count_present positive_words (lower text).
Proof.
  intros Hinv text.
  set (dp := news_point sym ts headline summary url).
  assert (Hprice : price dp = simple_sentiment_analysis text) by done.
  destruct (sentiment_score_facts text) as (_ & _ & Hpos & _). simpl in Hpos. fold text in Hpos.
  split.
  - intros Hok. apply Hpos. rewrite <- Hprice.
    apply Qnot_le_lt. intros Hle.
    destruct (validate_rejects v dp (or_introl Hle)) as [lg E]. rewrite E in Hok. done.
  - intros Hlt. apply Hpos in Hlt. rewrite <- Hprice in Hlt.
    destruct (validate_accepts v dp Hinv Hlt) as (lg & E & _); [done|]. by rewrite E.
Qed.

Lemma news_point_accepted_iff_positive_witness :
  let text := ("Profit growth beats forecast" ++ " " ++ "Shares fall")%string in
  (validate_price_data new_validator
     (news_point "AAPL" sample_instant (Some "Profit growth beats forecast"%string)
                 (Some "Shares fall"%string) None)).1.1 = true
  ↔ count_present negative_words (lower text) < count_present positive_words (lower text).
Proof.
  apply (news_point_accepted_iff_positive new_validator "AAPL" sample_instant
           (Some "Profit growth beats forecast"%string) (Some "Shares fall"%string) None).
  apply new_validator_positive.
Defined.

Example sentiment_of_mixed_headline :
  simple_sentiment_analysis "Profit growth beats forecast Shares fall" = (1 # 3)%Q.
Proof. reflexivity. Qed.

Lemma store_batch_success_witness :
  let s := mkStorage true false [] in
  let res := store_batch NoFault sample_heap s [0%nat; 1%nat] in
  (res.1.1 = true ↔
     pool s = true ∧ pool_closed s = false ∧ [0%nat; 1%nat] ≠ [] ∧ NoFault = NoFault
     ∧ is_Some (rows_of sample_heap [0%nat; 1%nat]))
  ∧ (res.1.1 = true →
     ∃ rows, Forall2 (λ r row, sample_heap !! r ≫= row_of = Some row) [0%nat; 1%nat] rows
             ∧ length rows = length [0%nat; 1%nat]
             ∧ market_data res.1.2 = market_data s ++ rows)
  ∧ ([0%nat; 1%nat] = [] → res = (false, s, [])).
Proof.
  apply (store_batch_success NoFault sample_heap (mkStorage true false []) [0%nat; 1%nat]).
Defined.
